(** * llm_code_context.file_selector: ignore rules and directory traversal

    A shallow embedding of [src/llm_code_context/file_selector.py]:
    the pattern matcher wrapper [PathspecIgnorer], the scoped registry
    [GitIgnorer], the traversal of [FileSelector] and the selection
    updater, followed by the properties of the specification that are
    settled against them. *)

From Stdlib Require Import String Ascii List Bool Arith Lia.
Import ListNotations.
Open Scope list_scope.
Open Scope string_scope.

(** ** Outcomes of a call

    A Python call either returns a value or raises.  [AssertionError] is
    what a failing [assert] raises, [OSError] stands for every error of the
    operating system ([FileNotFoundError], [PermissionError],
    [NotADirectoryError], ...), [UnicodeDecodeError] is what reading a text
    file raises when its bytes do not decode, [PatternError] stands for what
    the pattern library raises on a malformed line.  [NoFuel] is not a
    behaviour of the program: it marks a recursion budget of the model that
    was too small. *)

Inductive exn : Type := AssertionError | OSError | UnicodeDecodeError | PatternError.

Inductive outcome (A : Type) : Type :=
| Ok (a : A)
| Raise (e : exn)
| NoFuel.

Arguments Ok {A} a.
Arguments Raise {A} e.
Arguments NoFuel {A}.

Definition bind {A B : Type} (m : outcome A) (k : A -> outcome B) : outcome B :=
  match m with
  | Ok a => k a
  | Raise e => Raise e
  | NoFuel => NoFuel
  end.

Notation "x <- m ;; k" := (bind m (fun x => k))
  (at level 61, m at next level, right associativity).

(** A list comprehension with a condition that may raise:
    [[x for x in l if keep x]]. *)
Fixpoint filterM {A : Type} (keep : A -> outcome bool) (l : list A) : outcome (list A) :=
  match l with
  | [] => Ok []
  | x :: l' =>
      b <- keep x ;;
      r <- filterM keep l' ;;
      Ok (if b then x :: r else r)
  end.

(** A nested comprehension [[y for x in l for y in f x]]. *)
Fixpoint flat_mapM {A B : Type} (f : A -> outcome (list B)) (l : list A) : outcome (list B) :=
  match l with
  | [] => Ok []
  | x :: l' =>
      ys <- f x ;;
      r <- flat_mapM f l' ;;
      Ok (ys ++ r)%list
  end.

(** The same comprehension over a body that keeps a record: each element
    gives a record and an outcome; the records are put one after the other,
    and the comprehension ends with the first body that does not return. *)
Fixpoint flat_map_logged {A B C : Type} (f : A -> list C * outcome (list B)) (l : list A)
  : list C * outcome (list B) :=
  match l with
  | [] => ([], Ok [])
  | x :: l' =>
      match f x with
      | (log, Ok ys) =>
          let rest := flat_map_logged f l' in
          ((log ++ fst rest)%list, r <- snd rest ;; Ok (ys ++ r)%list)
      | (log, Raise e) => (log, Raise e)
      | (log, NoFuel) => (log, NoFuel)
      end
  end.

(** ** Strings and [os.path] *)

Definition sep : ascii := "/"%char.

(** [str.startswith]. *)
Definition startswith (s prefix : string) : bool := String.prefix prefix s.

(** [str.endswith] for the one-character separator. *)
Fixpoint endswith_sep (s : string) : bool :=
  match s with
  | EmptyString => false
  | String c EmptyString => Ascii.eqb c sep
  | String _ s' => endswith_sep s'
  end.

(** Truth value of a string: only the empty string is falsy. *)
Definition truthy (s : string) : bool := negb (s =? "").

(** [os.path.join a b] (posixpath, two arguments). *)
Definition os_path_join (a b : string) : string :=
  if startswith b "/" then b
  else if (a =? "") || endswith_sep a then a ++ b
  else a ++ "/" ++ b.

(** [s.split("/")]. *)
Fixpoint split_sep (s : string) : list string :=
  match s with
  | EmptyString => [""]
  | String c s' =>
      if Ascii.eqb c sep then "" :: split_sep s'
      else match split_sep s' with
           | [] => [String c ""]
           | seg :: rest => String c seg :: rest
           end
  end.

(** [[x for x in p.split(sep) if x]]. *)
Definition components (p : string) : list string :=
  filter truthy (split_sep p).

(** Length of the longest common prefix of two component lists
    ([len(commonprefix([start_list, path_list]))]). *)
Fixpoint common_len (l1 l2 : list string) : nat :=
  match l1, l2 with
  | x :: l1', y :: l2' => if x =? y then S (common_len l1' l2') else 0
  | _, _ => 0
  end.

(** [os.path.relpath path start] on absolute, normalised paths, for which
    [abspath] is the identity.  The result is [join( *rel_list)], which for
    components (non-empty, without separator) is their concatenation with
    the separator. *)
Definition os_path_relpath (path start : string) : string :=
  let start_list := components start in
  let path_list := components path in
  let i := common_len start_list path_list in
  let rel_list := (repeat ".." (List.length start_list - i) ++ skipn i path_list)%list in
  match rel_list with
  | [] => "."
  | _ => String.concat "/" rel_list
  end.

(** ** The filesystem

    A directory tree as the program sees it.  A non-directory entry carries
    what reading it as text gives: the lines of its content
    ([file.read().splitlines()]), or that it cannot be opened or read, or
    that its bytes do not decode.  A directory carries whether its entry is
    the directory itself or a symbolic link to it, whether it can be listed,
    and its entries in listing order.  [os.path.isdir] and [os.listdir]
    follow a symbolic link; [os.walk] lists it among the directories but
    does not enter it.  A tree is finite: links that lead back to a
    directory above them are seen through [os.path.isdir] as a finite
    nesting, since the operating system bounds the links on one path. *)

Inductive content : Type :=
| Text (lines : list string)
| Unreadable
| Undecodable.

Inductive dirkind : Type := Plain | Symlink.

#[warnings="-register-all"]
Inductive node : Type :=
| File (c : content)
| Dir (kind : dirkind) (listable : bool) (entries : list (string * node)).

Definition isdir (n : node) : bool :=
  match n with
  | Dir _ _ _ => true
  | File _ => false
  end.

(** [os.listdir path], where [here] is what the filesystem holds at [path]:
    the names with what each one denotes. *)
Definition os_listdir (path : string) (here : node) : outcome (list (string * node)) :=
  if path =? "" then Raise OSError
  else match here with
       | Dir _ true entries => Ok entries
       | Dir _ false _ => Raise OSError
       | File _ => Raise OSError
       end.

(** [open(path, "r").read().splitlines()] for the entry [name] of a
    directory with the entries [here]: the lines of a text file, [OSError]
    when the entry is missing, is a directory or cannot be opened or read,
    [UnicodeDecodeError] when its bytes do not decode. *)
Fixpoint read_lines (here : list (string * node)) (name : string) : outcome (list string) :=
  match here with
  | [] => Raise OSError
  | (e, n) :: here' =>
      if e =? name then
        match n with
        | File (Text lines) => Ok lines
        | File Unreadable => Raise OSError
        | File Undecodable => Raise UnicodeDecodeError
        | Dir _ _ _ => Raise OSError
        end
      else read_lines here' name
  end.

(** One item of [os.walk]: [(root, dirs, files)], together with the entries
    of [root] so that a file found there can be opened. *)
Record walk_item : Type := WalkItem {
  w_root : string;
  w_dirs : list string;
  w_files : list string;
  w_here : list (string * node)
}.

(** [os.walk top] (top-down, [onerror=None], [followlinks=False]): a
    directory that cannot be scanned is skipped without an error, and so is
    a [top] that is not a directory or that is the empty path.  An entry
    that is a symbolic link to a directory is listed among the directories
    of its parent and not entered. *)
Fixpoint os_walk (top : string) (n : node) : list walk_item :=
  match n with
  | File _ => []
  | Dir _ false _ => []
  | Dir _ true entries =>
      if top =? "" then [] else
      WalkItem top
        (map fst (filter (fun en => isdir (snd en)) entries))
        (map fst (filter (fun en => negb (isdir (snd en))) entries))
        entries
      :: flat_map (fun en =>
                     match snd en with
                     | Dir Plain _ _ => os_walk (os_path_join top (fst en)) (snd en)
                     | Dir Symlink _ _ => []
                     | File _ => []
                     end) entries
  end.

(** Nesting depth of a tree, the recursion budget a traversal needs. *)
Fixpoint depth (n : node) : nat :=
  match n with
  | File _ => 0
  | Dir _ _ entries => S (fold_right (fun en acc => Nat.max (depth (snd en)) acc) 0 entries)
  end.

(** ** The pattern library

    [pathspec.GitIgnoreSpec] is a third-party library: the program only
    compiles pattern lines with [from_lines], which fails on a malformed
    line, and asks [match_file].  It is an interface here, so that
    everything below holds for any matcher. *)

Class Pathspec : Type := {
  GitIgnoreSpec : Type;
  from_lines : list string -> option GitIgnoreSpec;
  match_file : GitIgnoreSpec -> string -> bool
}.

(** Modelled from the spec: [ConfigManager] lives in
    [llm_code_context.config_manager], which is not part of the sources at
    hand.  The spec lists what the core consumes: a project root path, the
    same root as a logical path, the configured root-level ignore patterns
    (key [gitignores]) and an operation that persists a sequence of file
    paths as the selected files. *)
Record ConfigManager : Type := {
  project_root_path : string;
  project_root : string;
  gitignores : list string
}.



Section Selector.

Context {lib : Pathspec}.

(** ** [PathspecIgnorer] *)

Record PathspecIgnorer : Type := { pathspec : GitIgnoreSpec }.

Definition PathspecIgnorer_create (ignore_patterns : list string) : outcome PathspecIgnorer :=
  match from_lines ignore_patterns with
  | Some p => Ok {| pathspec := p |}
  | None => Raise PatternError
  end.

(** [path not in ("/", "")] *)
Definition is_root_query (path : string) : bool :=
  (path =? "/") || (path =? "").

Definition PathspecIgnorer_ignore (self : PathspecIgnorer) (path : string) : outcome bool :=
  if is_root_query path then Raise AssertionError
  else Ok (match_file (pathspec self) path).

(** ** [GitIgnorer] *)

Record GitIgnorer : Type := { ignorer_data : list (string * PathspecIgnorer) }.

(** The body of the loop of [_collect_gitignores], over the items that
    [os.walk] yields; [gitignores] is the list built so far. *)
Fixpoint collect_loop (top : string) (items : list walk_item)
    (gitignores : list (string * list string)) : outcome (list (string * list string)) :=
  match items with
  | [] => Ok gitignores
  | it :: items' =>
      if existsb (String.eqb ".gitignore") (w_files it) then
        patterns <- read_lines (w_here it) ".gitignore" ;;
        let relpath := os_path_relpath (w_root it) top in
        let fixpath := if relpath =? "." then "/"
                       else "/" ++ os_path_relpath (w_root it) top in
        collect_loop top items' (gitignores ++ [(fixpath, patterns)])%list
      else collect_loop top items' gitignores
  end.

Definition _collect_gitignores (top : string) (fs : node) : outcome (list (string * list string)) :=
  collect_loop top (os_walk top fs) [].

(** The loop of [from_git_root] that appends one scope per [.gitignore]. *)
Fixpoint append_scopes (ignorer_data : list (string * PathspecIgnorer))
    (gitignores : list (string * list string)) : outcome (list (string * PathspecIgnorer)) :=
  match gitignores with
  | [] => Ok ignorer_data
  | (relative_path, patterns) :: gitignores' =>
      ig <- PathspecIgnorer_create patterns ;;
      append_scopes (ignorer_data ++ [(relative_path, ig)])%list gitignores'
  end.

(** [xtra_root_patterns or []] *)
Definition or_empty (xtra_root_patterns : option (list string)) : list string :=
  match xtra_root_patterns with
  | Some l => l
  | None => []
  end.

(** [fs] is the directory tree found at [root_dir]. *)
Definition from_git_root (root_dir : string) (fs : node)
    (xtra_root_patterns : option (list string)) : outcome GitIgnorer :=
  root_ignorer <- PathspecIgnorer_create (or_empty xtra_root_patterns) ;;
  let ignorer_data := [("/", root_ignorer)] in
  gitignores <- _collect_gitignores root_dir fs ;;
  ignorer_data' <- append_scopes ignorer_data gitignores ;;
  Ok {| ignorer_data := ignorer_data' |}.

(** The [for] loop of [GitIgnorer.ignore], with its early [return True]. *)
Fixpoint ignore_loop (data : list (string * PathspecIgnorer)) (path : string) : outcome bool :=
  match data with
  | [] => Ok false
  | (prefix, ignorer) :: data' =>
      if startswith path prefix then
        b <- PathspecIgnorer_ignore ignorer path ;;
        if b then Ok true else ignore_loop data' path
      else ignore_loop data' path
  end.

Definition GitIgnorer_ignore (self : GitIgnorer) (path : string) : outcome bool :=
  if is_root_query path then Raise AssertionError
  else ignore_loop (ignorer_data self) path.

(** The calls [ignorer.ignore(...)] that the loop of [GitIgnorer.ignore]
    makes, in order: for each the prefix of the scope, its matcher and the
    argument handed to it. *)
Fixpoint ignore_calls (data : list (string * PathspecIgnorer)) (path : string)
  : list (string * PathspecIgnorer * string) :=
  match data with
  | [] => []
  | (prefix, ignorer) :: data' =>
      if startswith path prefix then
        (prefix, ignorer, path)
        :: (if match_file (pathspec ignorer) path then [] else ignore_calls data' path)
      else ignore_calls data' path
  end.

(** ** [FileSelector] *)

Record FileSelector : Type := {
  config_manager : ConfigManager;
  ignorer : GitIgnorer
}.

Definition FileSelector_create (cm : ConfigManager) (fs : node)
    (pathspecs : option (list string)) : outcome FileSelector :=
  let config_manager := cm in
  let pathspecs := match pathspecs with
                   | None => gitignores config_manager
                   | Some l => l
                   end in
  git_ignorer <- from_git_root (project_root_path config_manager) fs (Some pathspecs) ;;
  Ok {| config_manager := config_manager; ignorer := git_ignorer |}.

(** The ignore queries that [traverse] forms for an entry [e]. *)
Definition dir_query (relative_current_dir e : string) : string :=
  "/" ++ os_path_join relative_current_dir e ++ "/".

Definition file_query (relative_current_dir e : string) : string :=
  "/" ++ os_path_join relative_current_dir e.

(** The conditions of the two comprehensions of [traverse]; [and] is
    evaluated left to right and stops at the first false operand. *)
Definition keep_dir (self : FileSelector) (current_dir relative_current_dir : string)
    (en : string * node) : outcome bool :=
  let e_path := os_path_join current_dir (fst en) in
  if truthy e_path && isdir (snd en) then
    b <- GitIgnorer_ignore (ignorer self) (dir_query relative_current_dir (fst en)) ;;
    Ok (negb b)
  else Ok false.

Definition keep_file (self : FileSelector) (current_dir relative_current_dir : string)
    (en : string * node) : outcome bool :=
  let e_path := os_path_join current_dir (fst en) in
  if truthy e_path && negb (isdir (snd en)) then
    b <- GitIgnorer_ignore (ignorer self) (file_query relative_current_dir (fst en)) ;;
    Ok (negb b)
  else Ok false.

(** [traverse current_dir], where [here] is what the filesystem holds at
    [current_dir].  A kept entry is carried with the node it denotes, so
    that the recursive call can list it. *)
Fixpoint traverse (fuel : nat) (self : FileSelector) (current_dir : string) (here : node)
  : outcome (list string) :=
  match fuel with
  | 0 => NoFuel
  | S fuel' =>
      entries <- os_listdir current_dir here ;;
      let root_path := project_root (config_manager self) in
      let relative_current_dir := os_path_relpath current_dir root_path in
      dirs <- filterM (keep_dir self current_dir relative_current_dir) entries ;;
      files <- filterM (keep_file self current_dir relative_current_dir) entries ;;
      subdir_files <- flat_mapM (fun d => traverse fuel' self (os_path_join current_dir (fst d)) (snd d))
                        dirs ;;
      Ok (map (fun en => os_path_join current_dir (fst en)) files ++ subdir_files)%list
  end.

(** [traverse] with the record of its calls.  The first component lists
    the directories that [traverse] is called on, the call on [current_dir]
    included, in call order and up to the point where the run ends; each
    call begins by listing its directory, so this is also the record of the
    calls of [os.listdir].  The second component is the outcome of
    [traverse]. *)
Fixpoint traverse_logged (fuel : nat) (self : FileSelector) (current_dir : string)
    (here : node) : list string * outcome (list string) :=
  match fuel with
  | 0 => ([current_dir], NoFuel)
  | S fuel' =>
      let root_path := project_root (config_manager self) in
      let relative_current_dir := os_path_relpath current_dir root_path in
      match (entries <- os_listdir current_dir here ;;
             dirs <- filterM (keep_dir self current_dir relative_current_dir) entries ;;
             files <- filterM (keep_file self current_dir relative_current_dir) entries ;;
             Ok (dirs, files)) with
      | Ok (dirs, files) =>
          let below :=
            flat_map_logged
              (fun d => traverse_logged fuel' self (os_path_join current_dir (fst d)) (snd d))
              dirs in
          (current_dir :: fst below,
           subdir_files <- snd below ;;
           Ok (map (fun en => os_path_join current_dir (fst en)) files ++ subdir_files)%list)
      | Raise e => ([current_dir], Raise e)
      | NoFuel => ([current_dir], NoFuel)
      end
  end.

(** [fs] is the directory tree found at the project root. *)
Definition get_all (self : FileSelector) (fs : node) : outcome (list string) :=
  traverse (S (depth fs)) self (project_root_path (config_manager self)) fs.



End Selector.

(** ** A small matcher to run the program on examples

    An instance of the interface that covers a fragment of the gitignore
    syntax: a line [*] matches every path, a line [*lit] every path whose
    last component ends with [lit], a leading [!] turns a line into a
    re-inclusion, any other line matches nothing, and the last line that
    matches decides.  It is used only to evaluate the program at concrete
    inputs. *)

Definition ends_with (s suffix : string) : bool :=
  (String.length suffix <=? String.length s)%nat
  && (substring (String.length s - String.length suffix) (String.length suffix) s =? suffix).

Definition strip_trailing_sep (s : string) : string :=
  if endswith_sep s then substring 0 (String.length s - 1) s else s.

Definition glob_matches (glob path : string) : bool :=
  match glob with
  | String "*"%char lit => ends_with (strip_trailing_sep path) lit
  | _ => false
  end.

Definition line_verdict (line path : string) : option bool :=
  match line with
  | String "!"%char glob => if glob_matches glob path then Some false else None
  | _ => if glob_matches line path then Some true else None
  end.

Definition mini_match_file (lines : list string) (path : string) : bool :=
  fold_left (fun acc line =>
               match line_verdict line path with
               | Some v => v
               | None => acc
               end) lines false.

#[export] Instance mini_gitignore : Pathspec := {
  GitIgnoreSpec := list string;
  from_lines := fun lines => Some lines;
  match_file := mini_match_file
}.

(** * Notions of the specification *)

Section Notions.

Context {lib : Pathspec}.

(** What one scope contributes to a query: the scope applies, and its
    matcher reports a match. *)
Definition scope_hit (path : string) (scope : string * PathspecIgnorer) : bool :=
  startswith path (fst scope) && match_file (pathspec (snd scope)) path.

(** The query path expressed from the root of a scope, as the specification
    words it: the directory prefix of the scope is taken off, so that
    [/sub/foo.py] becomes [/foo.py] for the scope at [/sub]; the root scope
    leaves the path as it is. *)
Definition scope_relative (prefix path : string) : string :=
  if prefix =? "/" then path
  else substring (String.length prefix) (String.length path - String.length prefix) path.

End Notions.

(** The prefix that [_collect_gitignores] gives to the scope of the
    directory [root] found below [top]: the root maps to [/], a nested
    directory to [/relative/path]. *)
Definition scope_prefix (root top : string) : string :=
  if os_path_relpath root top =? "." then "/" else "/" ++ os_path_relpath root top.

(** The entry is a symbolic link to a directory. *)
Definition islink (n : node) : bool :=
  match n with
  | Dir Symlink _ _ => true
  | _ => false
  end.

(** [dir_at top n root listing]: in the tree [n] found at [top], [root] is
    the path of a directory with the entries [listing], reached through
    directories that can be listed and, below [top], without following a
    symbolic link. *)
Inductive dir_at : string -> node -> string -> list (string * node) -> Prop :=
| dir_here (top : string) (k : dirkind) (listing : list (string * node)) :
    dir_at top (Dir k true listing) top listing
| dir_below (top : string) (k : dirkind) (listing : list (string * node))
            (e : string) (child : node)
            (root : string) (l : list (string * node)) :
    In (e, child) listing ->
    islink child = false ->
    dir_at (os_path_join top e) child root l ->
    dir_at top (Dir k true listing) root l.

(** What [_collect_gitignores] records for one walked directory. *)
Definition recorded (top : string) (it : walk_item) (g : string * list string) : Prop :=
  existsb (String.eqb ".gitignore") (w_files it) = true
  /\ read_lines (w_here it) ".gitignore" = Ok (snd g)
  /\ fst g = scope_prefix (w_root it) top.

(** ** Notions for the traversal *)

(** The string holds a separator. *)
Fixpoint has_sep (s : string) : bool :=
  match s with
  | EmptyString => false
  | String c s' => Ascii.eqb c sep || has_sep s'
  end.

(** A name as a directory listing gives it: not empty, without separator,
    and neither [.] nor [..]. *)
Definition valid_name (e : string) : bool :=
  truthy e && negb (has_sep e) && negb (e =? ".") && negb (e =? "..").

(** The strings of the list are pairwise different. *)
Fixpoint distinct (l : list string) : bool :=
  match l with
  | [] => true
  | x :: l' => negb (existsb (String.eqb x) l') && distinct l'
  end.

(** A tree as a filesystem can hold it: in every directory the names are
    valid and pairwise distinct. *)
Fixpoint well_formed (n : node) : bool :=
  match n with
  | File _ => true
  | Dir _ _ entries =>
      distinct (map fst entries)
      && forallb (fun en => valid_name (fst en) && well_formed (snd en)) entries
  end.

(** Every directory of the tree can be listed. *)
Fixpoint all_listable (n : node) : bool :=
  match n with
  | File _ => true
  | Dir _ b entries => b && forallb (fun en => all_listable (snd en)) entries
  end.

(** No directory of the tree holds a non-directory entry named
    [.gitignore]. *)
Fixpoint no_gitignore (n : node) : bool :=
  match n with
  | File _ => true
  | Dir _ _ entries =>
      forallb (fun en => (isdir (snd en) || negb (fst en =? ".gitignore"))
                         && no_gitignore (snd en)) entries
  end.

(** What [os.path.join cur e] puts in front of a valid name [e]. *)
Definition join_base (cur : string) : string :=
  if (cur =? "") || endswith_sep cur then cur else cur ++ "/".

(** The path of the entry reached from [cur] through the names [cs]:
    [os.path.join] applied along the way, as [traverse] does. *)
Definition path_of (cur : string) (cs : list string) : string :=
  fold_left os_path_join cs cur.

(** [p] is the path of an entry that lies below the entry [en] of [cur]. *)
Definition below_entry (cur : string) (en : string * node) (p : string) : Prop :=
  exists cs, cs <> [] /\ Forall (fun e => valid_name e = true) (fst en :: cs)
             /\ p = path_of cur (fst en :: cs).

(** [located cur n cs p m]: in the tree [n] found at [cur], the names [cs]
    lead to the node [m], whose path is [p]. *)
Inductive located : string -> node -> list string -> string -> node -> Prop :=
| located_here (cur : string) (n : node) : located cur n [] cur n
| located_below (cur : string) (k : dirkind) (b : bool) (entries : list (string * node))
                (e : string) (child : node) (cs : list string) (p : string) (m : node) :
    In (e, child) entries ->
    located (os_path_join cur e) child cs p m ->
    located cur (Dir k b entries) (e :: cs) p m.

(** Every non-directory entry of the tree, in the order of a traversal
    that ignores nothing. *)
Fixpoint all_files (cur : string) (n : node) : list string :=
  match n with
  | File _ => []
  | Dir _ _ entries =>
      (map (fun en => os_path_join cur (fst en))
           (filter (fun en => negb (isdir (snd en))) entries)
       ++ flat_map (fun en => if isdir (snd en)
                              then all_files (os_path_join cur (fst en)) (snd en)
                              else []) entries)%list
  end.

Section TraversalNotions.

Context {lib : Pathspec}.

(** The answer of the registry to a query other than the root. *)
Definition ignored (self : FileSelector) (query : string) : bool :=
  existsb (scope_hit query) (ignorer_data (ignorer self)).

(** An entry of the directory [current_dir] is a directory that the
    traversal descends into, respectively a file that it includes. *)
Definition kept_dir (self : FileSelector) (current_dir : string) (en : string * node) : bool :=
  truthy (os_path_join current_dir (fst en))
  && isdir (snd en)
  && negb (ignored self (dir_query (os_path_relpath current_dir
                                      (project_root (config_manager self))) (fst en))).

Definition kept_file (self : FileSelector) (current_dir : string) (en : string * node) : bool :=
  truthy (os_path_join current_dir (fst en))
  && negb (isdir (snd en))
  && negb (ignored self (file_query (os_path_relpath current_dir
                                       (project_root (config_manager self))) (fst en))).

(** The result that the specification describes for a directory: its
    non-ignored non-directory entries as paths, followed by the results of
    its non-ignored subdirectories in listing order, flattened. *)
Fixpoint selection (self : FileSelector) (cur : string) (n : node) : list string :=
  match n with
  | File _ => []
  | Dir _ _ entries =>
      (map (fun en => os_path_join cur (fst en)) (filter (kept_file self cur) entries)
       ++ flat_map (fun en => if kept_dir self cur en
                              then selection self (os_path_join cur (fst en)) (snd en)
                              else []) entries)%list
  end.

(** [selected self cur n cs p]: the names [cs] lead from [cur] to a
    non-directory entry of path [p] whose query is not ignored, through
    directories whose queries are not ignored. *)
Inductive selected (self : FileSelector) : string -> node -> list string -> string -> Prop :=
| selected_file (cur : string) (k : dirkind) (b : bool) (entries : list (string * node))
                (e : string) (c : content) :
    In (e, File c) entries ->
    kept_file self cur (e, File c) = true ->
    selected self cur (Dir k b entries) [e] (os_path_join cur e)
| selected_below (cur : string) (k : dirkind) (b : bool) (entries : list (string * node))
                 (e : string) (child : node) (cs : list string) (p : string) :
    In (e, child) entries ->
    kept_dir self cur (e, child) = true ->
    selected self (os_path_join cur e) child cs p ->
    selected self cur (Dir k b entries) (e :: cs) p.

(** [visits self cur n cs p m]: the names [cs] lead from [cur] to the
    node [m] of path [p] through entries that [traverse] keeps as
    directories to descend into; these are the nodes on which the traversal
    started at [cur] calls itself, as long as the listings succeed. *)
Inductive visits (self : FileSelector) : string -> node -> list string -> string -> node -> Prop :=
| visits_here (cur : string) (n : node) : visits self cur n [] cur n
| visits_below (cur : string) (k : dirkind) (b : bool) (entries : list (string * node))
               (e : string) (child : node) (cs : list string) (p : string) (m : node) :
    In (e, child) entries ->
    kept_dir self cur (e, child) = true ->
    visits self (os_path_join cur e) child cs p m ->
    visits self cur (Dir k b entries) (e :: cs) p m.

(** The query paths as claim C5 words them: [/] followed by the path of the
    entry relative to the project root, with a trailing [/] for a
    directory. *)
Definition claimed_dir_query (root_path e_path : string) : string :=
  "/" ++ os_path_relpath e_path root_path ++ "/".

Definition claimed_file_query (root_path e_path : string) : string :=
  "/" ++ os_path_relpath e_path root_path.

End TraversalNotions.

(** ** Example inputs *)

(** A project with [sub/.gitignore] holding the line [*], and a sibling
    directory [subdir] whose name extends [sub]. *)
Definition sibling_fs : node :=
  Dir Plain true [("sub", Dir Plain true [(".gitignore", File (Text ["*"]))]);
                  ("subdir", Dir Plain true [("file", File (Text []))])].

Definition sibling_registry : @GitIgnorer mini_gitignore :=
  {| ignorer_data := [("/", {| pathspec := ([] : @GitIgnoreSpec mini_gitignore) |});
                      ("/sub", {| pathspec := (["*"] : @GitIgnoreSpec mini_gitignore) |})] |}.

(** A project whose configured patterns are [*] and [!*.txt]: everything
    is ignored but the text files.  The directory [a] is ignored, the file
    [a/f.txt] in it is not. *)
Definition prune_cm : ConfigManager :=
  {| project_root_path := "/proj"; project_root := "/proj"; gitignores := ["*"; "!*.txt"] |}.

Definition prune_fs : node :=
  Dir Plain true [("a", Dir Plain true [("f.txt", File (Text []))]);
                  ("b.txt", File (Text []))].

Definition prune_selector : @FileSelector mini_gitignore :=
  {| config_manager := prune_cm;
     ignorer := {| ignorer_data :=
                     [("/", {| pathspec := (["*"; "!*.txt"] : @GitIgnoreSpec mini_gitignore) |})] |} |}.

(** A project with a cache directory that cannot be listed and that the
    configured pattern [*cache] ignores. *)
Definition cache_cm : ConfigManager :=
  {| project_root_path := "/proj"; project_root := "/proj"; gitignores := ["*cache"] |}.

Definition cache_fs : node :=
  Dir Plain true [("a.txt", File (Text [])); ("cache", Dir Plain false [])].

(** A project with a [.gitignore] in its root and one in [logs]. *)
Definition rooted_fs : node :=
  Dir Plain true [(".gitignore", File (Text ["*.log"]));
                  ("debug.log", File (Text []));
                  ("logs", Dir Plain true [(".gitignore", File (Text ["!*.log"]));
                                           ("keep.log", File (Text []))])].

(** A project without ignore rules. *)
Definition plain_cm : ConfigManager :=
  {| project_root_path := "/proj"; project_root := "/proj"; gitignores := [] |}.

Definition plain_fs : node :=
  Dir Plain true [("a.txt", File (Text []));
                  ("src", Dir Plain true [("main.py", File (Text [])); ("lib", Dir Plain true [])])].

(** A project whose directory [src] cannot be listed, and one whose
    [src/.gitignore] cannot be read. *)
Definition locked_fs : node :=
  Dir Plain true [("a.txt", File (Text [])); ("src", Dir Plain false [])].

Definition unreadable_fs : node :=
  Dir Plain true [("a.txt", File (Text []));
                  ("src", Dir Plain true [(".gitignore", File Unreadable)])].

(** ** Notions for further properties *)

(** [os.walk] found a non-directory entry named [.gitignore] in the
    directory of the item: the test [".gitignore" in files]. *)
Definition has_gitignore (it : walk_item) : bool :=
  existsb (String.eqb ".gitignore") (w_files it).

(** [subseq l1 l2]: [l1] is [l2] with some elements left out, the others in
    the same order. *)
Inductive subseq {A : Type} : list A -> list A -> Prop :=
| subseq_nil : subseq [] []
| subseq_skip (x : A) (l1 l2 : list A) : subseq l1 l2 -> subseq l1 (x :: l2)
| subseq_take (x : A) (l1 l2 : list A) : subseq l1 l2 -> subseq (x :: l1) (x :: l2).

(** The selector of [prune_selector] with a second scope that ignores the
    text files as well. *)
Definition strict_selector : @FileSelector mini_gitignore :=
  {| config_manager := prune_cm;
     ignorer := {| ignorer_data :=
                     [("/", {| pathspec := (["*"; "!*.txt"] : @GitIgnoreSpec mini_gitignore) |});
                      ("/", {| pathspec := (["*.txt"] : @GitIgnoreSpec mini_gitignore) |})] |} |}.

(** A project whose [src/.gitignore] holds the line [!]. *)
Definition malformed_fs : node :=
  Dir Plain true [("a.txt", File (Text []));
                  ("src", Dir Plain true [(".gitignore", File (Text ["!"]))])].

(** The matcher of the examples with a compilation that fails on a pattern
    set holding the line [!]. *)
Definition strict_from_lines (lines : list string) : option (list string) :=
  if existsb (String.eqb "!") lines then None else Some lines.

Definition strict_gitignore : Pathspec := {|
  GitIgnoreSpec := list string;
  from_lines := strict_from_lines;
  match_file := mini_match_file
|}.

(** The selector of a project without ignore rules. *)
Definition plain_selector : @FileSelector mini_gitignore :=
  {| config_manager := plain_cm;
     ignorer := {| ignorer_data :=
                     [("/", {| pathspec := ([] : @GitIgnoreSpec mini_gitignore) |})] |} |}.

Section Agreement.

Context {lib : Pathspec}.

(** [agree self cur n n']: the trees [n] and [n'] found at [cur] hold the
    same names with the same kinds in the same order, directory by
    directory, wherever the traversal of [self] descends; they may differ
    in the content of files, in which directories are symbolic links, and
    in everything below an entry that the traversal does not keep as a
    directory. *)
#[warnings="-register-all"]
Inductive agree (self : FileSelector) : string -> node -> node -> Prop :=
| agree_file (cur : string) (c c' : content) :
    agree self cur (File c) (File c')
| agree_dir (cur : string) (k k' : dirkind) (b : bool)
            (entries entries' : list (string * node)) :
    Forall2 (fun en en' =>
               fst en = fst en'
               /\ isdir (snd en) = isdir (snd en')
               /\ (kept_dir self cur en = true ->
                   agree self (os_path_join cur (fst en)) (snd en) (snd en')))
            entries entries' ->
    agree self cur (Dir k b entries) (Dir k' b entries').

End Agreement.

(** [replace_at n cs d']: the tree [n] with the node [d'] in the place of
    the entry reached by the names [cs]. *)
Fixpoint replace_at (n : node) (cs : list string) (d' : node) {struct cs} : node :=
  match cs with
  | [] => d'
  | e :: cs' =>
      match n with
      | File c => File c
      | Dir k b entries =>
          Dir k b (map (fun en => if fst en =? e
                                  then (fst en, replace_at (snd en) cs' d')
                                  else en) entries)
      end
  end.

(** The project of [prune_fs] with other content in the file and with an
    ignored directory [a] that cannot be listed. *)
Definition prune_fs_locked : node :=
  Dir Plain true [("a", Dir Plain false [("g.txt", File Unreadable)]);
                  ("b.txt", File Unreadable)].

(** A project whose [src/.gitignore] does not decode as text, and one
    whose entry [link] is a symbolic link to a directory that holds an
    unreadable [.gitignore]. *)
Definition undecodable_fs : node :=
  Dir Plain true [("a.txt", File (Text []));
                  ("src", Dir Plain true [(".gitignore", File Undecodable)])].


(** The selector of the configured pattern [*cache], and a project with an
    ignored cache directory that cannot be listed next to a directory
    [src]. *)
Definition cache_selector : @FileSelector mini_gitignore :=
  {| config_manager := cache_cm;
     ignorer := {| ignorer_data :=
                     [("/", {| pathspec := (["*cache"] : @GitIgnoreSpec mini_gitignore) |})] |} |}.

Definition mixed_fs : node :=
  Dir Plain true [("a.txt", File (Text []));
                  ("cache", Dir Plain false []);
                  ("src", Dir Plain true [("main.py", File (Text []))])].

(** A project whose directories [real] and [link] both hold a
    [.gitignore]; [link] is a symbolic link. *)
Definition symlink_fs : node :=
  Dir Plain true [("real", Dir Plain true [(".gitignore", File (Text ["*.log"]))]);
                  ("link", Dir Symlink true [(".gitignore", File (Text ["*.log"]))])].

(** * Properties *)

(** ** Strings *)

Lemma append_assoc (a b c : string) : (a ++ b) ++ c = a ++ b ++ c.
Proof. induction a as [|x a IH]; simpl; [reflexivity | now rewrite IH]. Qed.

Lemma append_empty_r (a : string) : a ++ "" = a.
Proof. induction a as [|x a IH]; simpl; [reflexivity | now rewrite IH]. Qed.

Lemma append_inv_head (a b c : string) : a ++ b = a ++ c -> b = c.
Proof.
  induction a as [|x a IH]; simpl; intros H; [exact H|].
  injection H as H. now apply IH.
Qed.

Lemma length_append (a b : string) :
  String.length (a ++ b) = String.length a + String.length b.
Proof. induction a as [|x a IH]; simpl; [reflexivity | now rewrite IH]. Qed.

Lemma startswith_append (d x : string) : startswith (d ++ x) d = true.
Proof.
  unfold startswith. induction d as [|c d IH]; simpl.
  - now destruct x.
  - destruct (ascii_dec c c) as [_|n]; [exact IH | now elim n].
Qed.

Lemma startswith_inv (s d : string) :
  startswith s d = true -> exists x, s = d ++ x.
Proof.
  unfold startswith. revert s. induction d as [|c d IH]; intros s H.
  - now exists s.
  - destruct s as [|b s]; simpl in H; [discriminate|].
    destruct (ascii_dec c b) as [->|]; [|discriminate].
    destruct (IH _ H) as [x ->]. now exists x.
Qed.

Lemma is_root_query_false (path : string) :
  path <> "/" -> path <> "" -> is_root_query path = false.
Proof.
  intros H1 H2. unfold is_root_query.
  apply orb_false_iff; split; now apply String.eqb_neq.
Qed.

Lemma is_root_query_long (path : string) :
  2 <= String.length path -> is_root_query path = false.
Proof.
  intros H. apply is_root_query_false; intros ->; simpl in H; lia.
Qed.

(** ** The registry query *)

Section Registry.

Context {lib : Pathspec}.

Lemma ignore_loop_existsb (data : list (string * PathspecIgnorer)) (path : string) :
  is_root_query path = false ->
  ignore_loop data path = Ok (existsb (scope_hit path) data).
Proof.
  intros Hr. induction data as [|[prefix ig] data IH]; simpl; [reflexivity|].
  unfold scope_hit at 1, PathspecIgnorer_ignore. simpl. rewrite Hr.
  destruct (startswith path prefix); simpl; [|exact IH].
  destruct (match_file (pathspec ig) path); [reflexivity | exact IH].
Qed.

Lemma ignore_existsb (self : GitIgnorer) (path : string) :
  is_root_query path = false ->
  GitIgnorer_ignore self path = Ok (existsb (scope_hit path) (ignorer_data self)).
Proof.
  intros Hr. unfold GitIgnorer_ignore. rewrite Hr. now apply ignore_loop_existsb.
Qed.

Lemma ignore_calls_sound (data : list (string * PathspecIgnorer)) (path : string) :
  Forall (fun c => In (fst c) data
                   /\ startswith path (fst (fst c)) = true
                   /\ snd c = path)
         (ignore_calls data path).
Proof.
  induction data as [|[prefix ig] data IH]; simpl; [constructor|].
  assert (Hw : Forall (fun c => In (fst c) ((prefix, ig) :: data)
                                /\ startswith path (fst (fst c)) = true
                                /\ snd c = path) (ignore_calls data path)).
  { eapply Forall_impl; [|exact IH]. intros c (H1 & H2 & H3). simpl. auto. }
  destruct (startswith path prefix) eqn:Hp; [|exact Hw].
  constructor; [simpl; auto|].
  destruct (match_file (pathspec ig) path); [constructor | exact Hw].
Qed.

Lemma ignore_calls_verdict (data : list (string * PathspecIgnorer)) (path : string) :
  existsb (fun c => match_file (pathspec (snd (fst c))) (snd c)) (ignore_calls data path)
  = existsb (scope_hit path) data.
Proof.
  induction data as [|[prefix ig] data IH]; simpl; [reflexivity|].
  unfold scope_hit at 1. simpl.
  destruct (startswith path prefix); simpl; [|exact IH].
  destruct (match_file (pathspec ig) path) eqn:Hm; cbn [existsb fst snd];
    [reflexivity | exact IH].
Qed.

Lemma ignore_calls_complete (data : list (string * PathspecIgnorer)) (path : string)
    (prefix : string) (ig : PathspecIgnorer) :
  existsb (scope_hit path) data = false ->
  In (prefix, ig) data -> startswith path prefix = true ->
  In (prefix, ig, path) (ignore_calls data path).
Proof.
  induction data as [|[p i] data IH]; simpl; [tauto|].
  unfold scope_hit at 1. simpl. intros Hn Hin Hp.
  apply orb_false_iff in Hn. destruct Hn as [Hh Hn].
  destruct Hin as [E|Hin].
  - injection E as -> ->. rewrite Hp in *. simpl in Hh. rewrite Hh. now left.
  - destruct (startswith path p); simpl in Hh.
    + rewrite Hh. right. now apply IH.
    + now apply IH.
Qed.

End Registry.

Lemma startswith_cons (a b : ascii) (s d : string) :
  startswith (String b s) (String a d)
  = if ascii_dec a b then startswith s d else false.
Proof. reflexivity. Qed.

Lemma startswith_empty (s : string) : startswith s "" = true.
Proof. now destruct s. Qed.

Lemma startswith_append_cancel (d a b : string) :
  startswith (d ++ a) (d ++ b) = startswith a b.
Proof.
  unfold startswith. induction d as [|c d IH]; simpl; [reflexivity|].
  destruct (ascii_dec c c) as [_|n]; [exact IH | now elim n].
Qed.

(** ** The scoped registry: claims C1, C6 and C7 *)

(** C7.  Both [PathspecIgnorer.ignore] and [GitIgnorer.ignore] raise the
    assertion error on the root path ["/"] and on the empty path, whatever
    the pattern set and whatever the registry. *)
Theorem C7_root_query_raises :
  forall (lib : Pathspec) (m : PathspecIgnorer) (r : GitIgnorer),
    PathspecIgnorer_ignore m "/" = Raise AssertionError
    /\ PathspecIgnorer_ignore m "" = Raise AssertionError
    /\ GitIgnorer_ignore r "/" = Raise AssertionError
    /\ GitIgnorer_ignore r "" = Raise AssertionError.
Proof.
  intros lib m r. repeat split; reflexivity.
Qed.

(** C1.  For a query path other than ["/"] and [""], [GitIgnorer.ignore]
    returns the disjunction over the scope entries of "the path starts with
    the prefix and the matcher of the scope matches it": it returns true
    exactly when some applicable scope matches, only applicable scopes are
    handed to their matcher, and when the answer is false every applicable
    scope was asked.  One matching scope is enough whatever the other
    scopes hold, so no scope can undo the match of another. *)
Theorem C1_ignore_is_or_over_scopes :
  forall (lib : Pathspec) (self : GitIgnorer) (path : string),
    path <> "/" -> path <> "" ->
    GitIgnorer_ignore self path = Ok (existsb (scope_hit path) (ignorer_data self))
    /\ (GitIgnorer_ignore self path = Ok true <->
        exists prefix ig,
          In (prefix, ig) (ignorer_data self)
          /\ startswith path prefix = true
          /\ PathspecIgnorer_ignore ig path = Ok true)
    /\ Forall (fun c => In (fst c) (ignorer_data self)
                        /\ startswith path (fst (fst c)) = true)
              (ignore_calls (ignorer_data self) path)
    /\ (GitIgnorer_ignore self path = Ok false ->
        forall prefix ig,
          In (prefix, ig) (ignorer_data self) -> startswith path prefix = true ->
          In (prefix, ig, path) (ignore_calls (ignorer_data self) path)).
Proof.
  intros lib self path H1 H2.
  pose proof (is_root_query_false path H1 H2) as Hr.
  pose proof (ignore_existsb self path Hr) as He.
  split; [exact He|]. split; [|split].
  - rewrite He. split.
    + intros H. injection H as H. apply existsb_exists in H.
      destruct H as [[prefix ig] [Hin Hh]]. unfold scope_hit in Hh. simpl in Hh.
      apply andb_true_iff in Hh. destruct Hh as [Hp Hm].
      exists prefix, ig. repeat split; trivial.
      unfold PathspecIgnorer_ignore. now rewrite Hr, Hm.
    + intros (prefix & ig & Hin & Hp & Hm). f_equal.
      apply existsb_exists. exists (prefix, ig). split; [exact Hin|].
      unfold scope_hit. simpl. rewrite Hp. simpl.
      unfold PathspecIgnorer_ignore in Hm. rewrite Hr in Hm. now injection Hm.
  - eapply Forall_impl; [|apply ignore_calls_sound].
    intros c (Ha & Hb & _). now split.
  - rewrite He. intros H prefix ig Hin Hp. injection H as H.
    now apply ignore_calls_complete.
Qed.

(** C6 as amended.  Every call that the registry makes to a matcher hands
    it the query path unchanged, still expressed from the project root; the
    prefix of the scope only decides whether the call is made.  The answer
    of the registry is the disjunction of the answers to these calls. *)
Theorem C6_matcher_receives_query_unchanged :
  forall (lib : Pathspec) (self : GitIgnorer) (path : string),
    Forall (fun c => snd c = path
                     /\ startswith path (fst (fst c)) = true
                     /\ In (fst c) (ignorer_data self))
           (ignore_calls (ignorer_data self) path)
    /\ (is_root_query path = false ->
        GitIgnorer_ignore self path
        = Ok (existsb (fun c => match_file (pathspec (snd (fst c))) (snd c))
                      (ignore_calls (ignorer_data self) path))).
Proof.
  intros lib self path. split.
  - eapply Forall_impl; [|apply ignore_calls_sound].
    intros c (Ha & Hb & Hc). auto.
  - intros Hr. rewrite ignore_calls_verdict. now apply ignore_existsb.
Qed.

(** C6 as stated fails: with a scope at [/sub], the query [/sub/foo.py]
    reaches the matcher as [/sub/foo.py], not as [/foo.py]. *)
Lemma C6_counterexample :
  ~ (forall (lib : Pathspec) (self : GitIgnorer) (path : string)
            (c : string * PathspecIgnorer * string),
        is_root_query path = false ->
        In c (ignore_calls (ignorer_data self) path) ->
        snd c = scope_relative (fst (fst c)) path).
Proof.
  intros H.
  specialize (H mini_gitignore
                {| ignorer_data := [("/sub", {| pathspec := ([] : @GitIgnoreSpec mini_gitignore) |})] |}
                "/sub/foo.py"
                ("/sub", {| pathspec := ([] : @GitIgnoreSpec mini_gitignore) |}, "/sub/foo.py")
                eq_refl (or_introl eq_refl)).
  discriminate H.
Qed.

(** The registry with a scope at [/sub] holding [*] ignores [/sub/x.py]. *)
Lemma C1_witness :
  "/sub/x.py" <> "/" /\ "/sub/x.py" <> ""
  /\ GitIgnorer_ignore sibling_registry "/sub/x.py" = Ok true.
Proof.
  assert (H1 : "/sub/x.py" <> "/") by discriminate.
  assert (H2 : "/sub/x.py" <> "") by discriminate.
  split; [exact H1 | split; [exact H2|]].
  exact (proj1 (C1_ignore_is_or_over_scopes mini_gitignore sibling_registry "/sub/x.py" H1 H2)).
Defined.

(** The two calls made for [/sub/foo.py], each with the query as it came. *)
Lemma C6_witness :
  is_root_query "/sub/foo.py" = false
  /\ ignore_calls (ignorer_data sibling_registry) "/sub/foo.py"
     = [("/", {| pathspec := ([] : @GitIgnoreSpec mini_gitignore) |}, "/sub/foo.py");
        ("/sub", {| pathspec := (["*"] : @GitIgnoreSpec mini_gitignore) |}, "/sub/foo.py")]
  /\ GitIgnorer_ignore sibling_registry "/sub/foo.py" = Ok true.
Proof.
  split; [reflexivity | split; [reflexivity|]].
  exact (proj2 (C6_matcher_receives_query_unchanged mini_gitignore sibling_registry "/sub/foo.py")
               eq_refl).
Defined.

(** ** Trees and the pre-walk *)

(** Induction over a tree, with the hypothesis for every entry of a
    directory. *)
Lemma node_induction (P : node -> Prop) :
  (forall c, P (File c)) ->
  (forall k b entries, Forall (fun en => P (snd en)) entries -> P (Dir k b entries)) ->
  forall n, P n.
Proof.
  intros Hf Hd. fix IH 1. intros [c|k b entries]; [apply Hf|].
  apply Hd. induction entries as [|en entries IHe]; constructor; [apply IH | exact IHe].
Qed.

Lemma os_walk_dir_at (n : node) :
  forall top it, In it (os_walk top n) ->
    dir_at top n (w_root it) (w_here it)
    /\ w_files it = map fst (filter (fun en => negb (isdir (snd en))) (w_here it))
    /\ w_dirs it = map fst (filter (fun en => isdir (snd en)) (w_here it)).
Proof.
  induction n as [c|k b entries IH] using node_induction; intros top it Hin.
  - destruct Hin.
  - destruct b; [|destruct Hin]. simpl in Hin.
    destruct (top =? ""); [destruct Hin|]. destruct Hin as [<-|Hin].
    + simpl. repeat split. constructor.
    + apply in_flat_map in Hin. destruct Hin as [[e child] [Hen Hin]].
      rewrite Forall_forall in IH. specialize (IH _ Hen). simpl in IH, Hin.
      destruct child as [c|[|] b' es']; [destruct Hin| |destruct Hin].
      destruct (IH _ _ Hin) as (Ha & Hb & Hc).
      repeat split; trivial. econstructor; [eassumption|reflexivity|eassumption].
Qed.

Lemma common_len_self (l : list string) : common_len l l = List.length l.
Proof.
  induction l as [|x l IH]; simpl; [reflexivity|].
  now rewrite String.eqb_refl, IH.
Qed.

Lemma relpath_self (p : string) : os_path_relpath p p = ".".
Proof.
  unfold os_path_relpath. rewrite common_len_self, Nat.sub_diag, skipn_all. reflexivity.
Qed.

Lemma scope_prefix_self (top : string) : scope_prefix top top = "/".
Proof. unfold scope_prefix. now rewrite relpath_self. Qed.

Section Build.

Context {lib : Pathspec}.

Lemma collect_loop_cons (top : string) (it : walk_item) (items : list walk_item)
    (acc : list (string * list string)) :
  collect_loop top (it :: items) acc
  = if existsb (String.eqb ".gitignore") (w_files it) then
      patterns <- read_lines (w_here it) ".gitignore" ;;
      collect_loop top items (acc ++ [(scope_prefix (w_root it) top, patterns)])%list
    else collect_loop top items acc.
Proof. reflexivity. Qed.

Lemma collect_loop_spec (top : string) (items : list walk_item) :
  forall acc r, collect_loop top items acc = Ok r ->
    exists added, r = (acc ++ added)%list
      /\ Forall (fun g => exists it, In it items /\ recorded top it g) added
      /\ (forall it items', items = it :: items' ->
            existsb (String.eqb ".gitignore") (w_files it) = true ->
            exists lines added', read_lines (w_here it) ".gitignore" = Ok lines
              /\ added = (scope_prefix (w_root it) top, lines) :: added').
Proof.
  induction items as [|it items IH]; intros acc r H.
  - injection H as <-. exists []. rewrite app_nil_r. repeat split; [constructor|].
    intros it items' E. discriminate E.
  - rewrite collect_loop_cons in H.
    destruct (existsb (String.eqb ".gitignore") (w_files it)) eqn:Hg.
    + destruct (read_lines (w_here it) ".gitignore") as [lines| |] eqn:Hr;
        simpl in H; try discriminate H.
      destruct (IH _ _ H) as (added & -> & Hall & _).
      exists ((scope_prefix (w_root it) top, lines) :: added).
      rewrite <- app_assoc. simpl. repeat split.
      * constructor.
        -- exists it. split; [now left|]. now repeat split.
        -- eapply Forall_impl; [|exact Hall]. intros g (it' & Hi & Hrec).
           exists it'. split; [now right | exact Hrec].
      * intros it0 items0 E _. injection E as <- <-. now exists lines, added.
    + destruct (IH _ _ H) as (added & -> & Hall & _).
      exists added. repeat split.
      * eapply Forall_impl; [|exact Hall]. intros g (it' & Hi & Hrec).
        exists it'. split; [now right | exact Hrec].
      * intros it0 items0 E Hg'. injection E as <- <-. rewrite Hg in Hg'. discriminate Hg'.
Qed.

Lemma append_scopes_spec (gitignores : list (string * list string)) :
  forall acc r, append_scopes acc gitignores = Ok r ->
    exists added, r = (acc ++ added)%list
      /\ Forall2 (fun g sc => fst sc = fst g /\ PathspecIgnorer_create (snd g) = Ok (snd sc))
                 gitignores added.
Proof.
  induction gitignores as [|[rp pats] gs IH]; intros acc r H; simpl in H.
  - injection H as <-. exists []. rewrite app_nil_r. split; [reflexivity | constructor].
  - destruct (PathspecIgnorer_create pats) as [ig| |] eqn:Hc; simpl in H; try discriminate H.
    destruct (IH _ _ H) as (added & -> & Hall).
    exists ((rp, ig) :: added). rewrite <- app_assoc. split; [reflexivity|].
    constructor; [now split | exact Hall].
Qed.

End Build.

Lemma gitignore_listed (listing : list (string * node)) :
  existsb (String.eqb ".gitignore")
          (map fst (filter (fun en => negb (isdir (snd en))) listing)) = true
  <-> exists c, In (".gitignore", File c) listing.
Proof.
  rewrite existsb_exists. split.
  - intros (x & Hin & Hx). apply String.eqb_eq in Hx. subst x.
    apply in_map_iff in Hin. destruct Hin as ([e n] & He & Hin). simpl in He. subst e.
    apply filter_In in Hin. destruct Hin as [Hin Hn].
    destruct n as [c|k b es]; [now exists c | discriminate Hn].
  - intros (c & Hin). exists ".gitignore". split; [|apply String.eqb_refl].
    apply in_map_iff. exists (".gitignore", File c). split; [reflexivity|].
    apply filter_In. now split.
Qed.

Lemma Forall2_transfer {A B : Type} (R : A -> B -> Prop) (P : A -> Prop) (Q : B -> Prop)
    (la : list A) (lb : list B) :
  Forall2 R la lb -> Forall P la -> (forall a b, P a -> R a b -> Q b) -> Forall Q lb.
Proof.
  intros H2 HP Himp. induction H2 as [|a b la lb Hab _ IH]; constructor.
  - apply (Himp a b); [now inversion HP | exact Hab].
  - apply IH. now inversion HP.
Qed.

(** ** Building the registry: claim C4 *)

(** C4.  A registry that [from_git_root] returns starts with a scope at
    prefix [/] whose matcher is compiled from the caller's extra root
    patterns alone; a [.gitignore] in the root directory gives a second,
    separate scope at prefix [/] right after it; and every scope after the
    first comes from a directory of the tree that directly holds a
    [.gitignore] file (a directory that the pre-walk reaches: through
    listable directories and no symbolic link), with the prefix of that
    directory and the matcher compiled from the lines of that file. *)
Theorem C4_registry_shape :
  forall (lib : Pathspec) (root_dir : string) (fs : node)
         (xtra : option (list string)) (reg : GitIgnorer),
    from_git_root root_dir fs xtra = Ok reg ->
    exists root_ig rest,
      ignorer_data reg = ("/", root_ig) :: rest
      /\ PathspecIgnorer_create (or_empty xtra) = Ok root_ig
      /\ (forall k listing c,
            root_dir <> "" ->
            fs = Dir k true listing -> In (".gitignore", File c) listing ->
            exists lines ig rest',
              read_lines listing ".gitignore" = Ok lines
              /\ PathspecIgnorer_create lines = Ok ig
              /\ rest = ("/", ig) :: rest')
      /\ Forall (fun sc => exists root listing lines,
                    dir_at root_dir fs root listing
                    /\ (exists c, In (".gitignore", File c) listing)
                    /\ read_lines listing ".gitignore" = Ok lines
                    /\ PathspecIgnorer_create lines = Ok (snd sc)
                    /\ fst sc = scope_prefix root root_dir) rest.
Proof.
  intros lib root_dir fs xtra reg H. unfold from_git_root in H.
  destruct (PathspecIgnorer_create (or_empty xtra)) as [root_ig| |] eqn:Hroot;
    simpl in H; try discriminate H.
  unfold _collect_gitignores in H.
  destruct (collect_loop root_dir (os_walk root_dir fs) []) as [gs| |] eqn:Hcol;
    simpl in H; try discriminate H.
  destruct (append_scopes [("/", root_ig)] gs) as [data| |] eqn:Happ;
    simpl in H; try discriminate H.
  injection H as <-. simpl.
  destruct (collect_loop_spec _ _ _ _ Hcol) as (added & -> & Hall & Hhead).
  destruct (append_scopes_spec _ _ _ Happ) as (rest & -> & Hrest).
  simpl in Hrest. exists root_ig, rest. split; [reflexivity|]. split; [reflexivity|]. split.
  - intros k listing c Hroot_dir -> Hin. simpl in Hhead.
    rewrite (proj2 (String.eqb_neq root_dir "") Hroot_dir) in Hhead.
    destruct (Hhead _ _ eq_refl) as (lines & added' & Hread & ->).
    { simpl. apply gitignore_listed. now exists c. }
    simpl in Hread. rewrite scope_prefix_self in Hrest.
    inversion Hrest as [|g sc gs' rest' [Hp Hc] Hrest' E1 E2]. subst.
    destruct sc as [p ig]. simpl in Hp, Hc. subst p.
    now exists lines, ig, rest'.
  - eapply Forall2_transfer; [exact Hrest | exact Hall |].
    intros g sc (it & Hit & Hg & Hread & Hp) [Hq Hc].
    destruct (os_walk_dir_at _ _ _ Hit) as (Hat & Hfiles & _).
    exists (w_root it), (w_here it), (snd g). repeat split; trivial.
    + apply gitignore_listed. now rewrite <- Hfiles.
    + now rewrite Hq.
Qed.

(** A project with a [.gitignore] in its root and one in [logs], built with
    the extra pattern [*.tmp]: two scopes at [/], then the scope of [/logs]. *)
Lemma C4_witness :
  from_git_root "/proj" rooted_fs (Some ["*.tmp"])
  = Ok {| ignorer_data :=
            [("/", {| pathspec := (["*.tmp"] : @GitIgnoreSpec mini_gitignore) |});
             ("/", {| pathspec := (["*.log"] : @GitIgnoreSpec mini_gitignore) |});
             ("/logs", {| pathspec := (["!*.log"] : @GitIgnoreSpec mini_gitignore) |})] |}
  /\ "/proj" <> ""
  /\ exists root_ig ig rest',
       [("/", {| pathspec := (["*.tmp"] : @GitIgnoreSpec mini_gitignore) |});
        ("/", {| pathspec := (["*.log"] : @GitIgnoreSpec mini_gitignore) |});
        ("/logs", {| pathspec := (["!*.log"] : @GitIgnoreSpec mini_gitignore) |})]
       = ("/", root_ig) :: ("/", ig) :: rest'
       /\ PathspecIgnorer_create ["*.tmp"] = Ok root_ig
       /\ PathspecIgnorer_create ["*.log"] = Ok ig.
Proof.
  assert (Hne : "/proj" <> "") by discriminate.
  split; [reflexivity | split; [exact Hne|]].
  destruct (C4_registry_shape mini_gitignore "/proj" rooted_fs (Some ["*.tmp"]) _ eq_refl)
    as (root_ig & rest & H1 & H2 & H3 & _).
  destruct (H3 _ _ (Text ["*.log"]) Hne eq_refl (or_introl eq_refl))
    as (lines & ig & rest' & Hread & Hig & ->).
  injection Hread as <-.
  exists root_ig, ig, rest'. split; [exact H1 | split; [exact H2 | exact Hig]].
Defined.

(** ** Paths *)

Lemma concat_nonempty (x : string) (l : list string) :
  x <> "" -> String.concat "/" (x :: l) <> "".
Proof.
  intros Hx. destruct x as [|c x]; [now elim Hx|]. destruct l; discriminate.
Qed.

Lemma in_skipn {A : Type} (x : A) (i : nat) (l : list A) : In x (skipn i l) -> In x l.
Proof.
  intros H. rewrite <- (firstn_skipn i l). apply in_or_app. now right.
Qed.

Lemma relpath_nonempty (path start : string) : os_path_relpath path start <> "".
Proof.
  unfold os_path_relpath.
  destruct (repeat ".." (List.length (components start)
                         - common_len (components start) (components path))
            ++ skipn (common_len (components start) (components path)) (components path))%list
    as [|x l] eqn:E; [discriminate|].
  apply concat_nonempty.
  assert (Hin : In x (x :: l)) by now left.
  rewrite <- E in Hin. apply in_app_or in Hin. destruct Hin as [Hin|Hin].
  - apply repeat_spec in Hin. subst x. discriminate.
  - apply in_skipn in Hin. unfold components in Hin. apply filter_In in Hin.
    destruct Hin as [_ Ht]. intros ->. discriminate Ht.
Qed.

Lemma join_nonempty (a b : string) : a <> "" -> os_path_join a b <> "".
Proof.
  intros Ha. unfold os_path_join.
  destruct (startswith b "/") eqn:Hb.
  - intros ->. discriminate Hb.
  - destruct a as [|c a]; [now elim Ha|].
    destruct ((String c a =? "") || endswith_sep (String c a)); discriminate.
Qed.

Lemma truthy_join (a b : string) : a <> "" -> truthy (os_path_join a b) = true.
Proof.
  intros Ha. unfold truthy. apply negb_true_iff, String.eqb_neq. now apply join_nonempty.
Qed.

Lemma dir_query_not_root (rel e : string) : is_root_query (dir_query rel e) = false.
Proof.
  apply is_root_query_long. unfold dir_query.
  change ("/" ++ os_path_join rel e ++ "/") with (String "/" (os_path_join rel e ++ "/")).
  simpl String.length. rewrite length_append. simpl. lia.
Qed.

Lemma file_query_not_root (rel e : string) :
  rel <> "" -> is_root_query (file_query rel e) = false.
Proof.
  intros Hrel. apply is_root_query_long. unfold file_query.
  pose proof (join_nonempty rel e Hrel) as Hj.
  destruct (os_path_join rel e); [now elim Hj | simpl; lia].
Qed.

(** ** The comprehensions *)

Lemma filterM_pure {A : Type} (keep : A -> outcome bool) (f : A -> bool) (l : list A) :
  (forall x, In x l -> keep x = Ok (f x)) -> filterM keep l = Ok (filter f l).
Proof.
  induction l as [|x l IH]; intros H; simpl; [reflexivity|].
  rewrite (H x (or_introl eq_refl)). simpl.
  rewrite IH by (intros y Hy; apply H; now right). reflexivity.
Qed.

Lemma flat_mapM_ok {A B : Type} (f : A -> outcome (list B)) (g : A -> list B) (l : list A) :
  (forall x, In x l -> f x = Ok (g x)) -> flat_mapM f l = Ok (flat_map g l).
Proof.
  induction l as [|x l IH]; intros H; simpl; [reflexivity|].
  rewrite (H x (or_introl eq_refl)). simpl.
  rewrite IH by (intros y Hy; apply H; now right). reflexivity.
Qed.

Lemma flat_mapM_ok_inv {A B : Type} (f : A -> outcome (list B)) (l : list A) (r : list B) :
  flat_mapM f l = Ok r -> forall x, In x l -> exists y, f x = Ok y.
Proof.
  revert r. induction l as [|x l IH]; intros r H y Hy; [destruct Hy|].
  simpl in H. destruct (f x) as [ys| |] eqn:Hx; simpl in H; try discriminate H.
  destruct (flat_mapM f l) as [r'| |] eqn:Hl; simpl in H; try discriminate H.
  destruct Hy as [<-|Hy]; [now exists ys | now apply (IH r')].
Qed.

Lemma flat_mapM_cases {A B : Type} (f : A -> outcome (list B)) (g : A -> list B)
    (e : exn) (l : list A) :
  (forall x, In x l -> f x = Ok (g x) \/ f x = Raise e) ->
  flat_mapM f l = Ok (flat_map g l) \/ flat_mapM f l = Raise e.
Proof.
  induction l as [|x l IH]; intros H; simpl; [now left|].
  destruct (H x (or_introl eq_refl)) as [-> | ->]; simpl; [|now right].
  destruct IH as [-> | ->]; [intros y Hy; apply H; now right | now left | now right].
Qed.

Lemma flat_map_filter {A B : Type} (keep : A -> bool) (g : A -> list B) (l : list A) :
  flat_map g (filter keep l) = flat_map (fun x => if keep x then g x else []) l.
Proof.
  induction l as [|x l IH]; simpl; [reflexivity|].
  destruct (keep x); simpl; now rewrite IH.
Qed.

Lemma depth_entry (k : dirkind) (b : bool) (entries : list (string * node)) (e : string) (child : node) :
  In (e, child) entries -> depth child < depth (Dir k b entries).
Proof.
  simpl. induction entries as [|en entries IH]; intros H; [destruct H|].
  simpl. destruct H as [-> | H]; simpl; [lia|].
  specialize (IH H). lia.
Qed.

(** ** The traversal *)

Section Traversal.

Context {lib : Pathspec}.

Variable self : FileSelector.

Lemma keep_dir_pure (cur : string) (en : string * node) :
  keep_dir self cur (os_path_relpath cur (project_root (config_manager self))) en
  = Ok (kept_dir self cur en).
Proof.
  unfold keep_dir, kept_dir.
  destruct (truthy (os_path_join cur (fst en)) && isdir (snd en)); [|reflexivity].
  rewrite ignore_existsb by apply dir_query_not_root. reflexivity.
Qed.

Lemma keep_file_pure (cur : string) (en : string * node) :
  keep_file self cur (os_path_relpath cur (project_root (config_manager self))) en
  = Ok (kept_file self cur en).
Proof.
  unfold keep_file, kept_file.
  destruct (truthy (os_path_join cur (fst en)) && negb (isdir (snd en))); [|reflexivity].
  rewrite ignore_existsb by apply file_query_not_root, relpath_nonempty. reflexivity.
Qed.

(** One level of [traverse] on a directory that can be listed. *)
Lemma traverse_listed (fuel : nat) (cur : string) (k : dirkind)
    (entries : list (string * node)) :
  cur <> "" ->
  traverse (S fuel) self cur (Dir k true entries)
  = (subdir_files <- flat_mapM (fun d => traverse fuel self (os_path_join cur (fst d)) (snd d))
                       (filter (kept_dir self cur) entries) ;;
     Ok (map (fun en => os_path_join cur (fst en)) (filter (kept_file self cur) entries)
         ++ subdir_files)%list).
Proof.
  intros Hc. simpl. unfold os_listdir.
  apply String.eqb_neq in Hc. rewrite Hc. simpl.
  rewrite (filterM_pure _ (kept_dir self cur)) by (intros; apply keep_dir_pure).
  simpl.
  rewrite (filterM_pure _ (kept_file self cur)) by (intros; apply keep_file_pure).
  reflexivity.
Qed.

Lemma traverse_unlistable (fuel : nat) (cur : string) (n : node) :
  (forall k entries, n <> Dir k true entries) ->
  traverse (S fuel) self cur n = Raise OSError.
Proof.
  intros H. simpl. unfold os_listdir.
  destruct (cur =? ""); [reflexivity|].
  destruct n as [c|k [|] entries]; try reflexivity. now elim (H k entries).
Qed.

Lemma traverse_empty_path (fuel : nat) (n : node) :
  traverse (S fuel) self "" n = Raise OSError.
Proof. reflexivity. Qed.

End Traversal.

Section TraversalResult.

Context {lib : Pathspec}.

Variable self : FileSelector.

Lemma kept_dir_inv (cur e : string) (child : node) :
  kept_dir self cur (e, child) = true ->
  os_path_join cur e <> ""
  /\ isdir child = true
  /\ ignored self (dir_query (os_path_relpath cur (project_root (config_manager self))) e)
     = false.
Proof.
  unfold kept_dir. simpl. intros H.
  apply andb_true_iff in H. destruct H as [H H3].
  apply andb_true_iff in H. destruct H as [H1 H2].
  unfold truthy in H1. apply negb_true_iff in H1. apply String.eqb_neq in H1.
  apply negb_true_iff in H3. now repeat split.
Qed.

Lemma kept_file_inv (cur e : string) (child : node) :
  kept_file self cur (e, child) = true ->
  os_path_join cur e <> ""
  /\ isdir child = false
  /\ ignored self (file_query (os_path_relpath cur (project_root (config_manager self))) e)
     = false.
Proof.
  unfold kept_file. simpl. intros H.
  apply andb_true_iff in H. destruct H as [H H3].
  apply andb_true_iff in H. destruct H as [H1 H2].
  unfold truthy in H1. apply negb_true_iff in H1. apply String.eqb_neq in H1.
  apply negb_true_iff in H2. apply negb_true_iff in H3. now repeat split.
Qed.

(** With enough fuel a traversal either returns the selection or raises
    the error of a failed listing; it never raises anything else. *)
Lemma traverse_outcome (fuel : nat) :
  forall cur n, depth n < fuel ->
    traverse fuel self cur n = Ok (selection self cur n)
    \/ traverse fuel self cur n = Raise OSError.
Proof.
  induction fuel as [|fuel IH]; intros cur n Hd; [lia|].
  destruct n as [c|k [|] entries];
    try (right; apply traverse_unlistable; intros k' es; discriminate).
  destruct (string_dec cur "") as [->|Hc]; [right; reflexivity|].
  rewrite traverse_listed by exact Hc.
  destruct (flat_mapM_cases
              (fun d => traverse fuel self (os_path_join cur (fst d)) (snd d))
              (fun d => selection self (os_path_join cur (fst d)) (snd d))
              OSError (filter (kept_dir self cur) entries)) as [-> | ->].
  - intros [e child] Hin. apply filter_In in Hin. destruct Hin as [Hin _].
    apply IH. pose proof (depth_entry k true entries e child Hin). simpl. lia.
  - left. simpl. now rewrite flat_map_filter.
  - now right.
Qed.

(** A traversal that returns has listed every directory it visited. *)
Lemma traverse_ok_visits (cur : string) (n : node) (cs : list string) (p : string) (m : node) :
  visits self cur n cs p m ->
  forall fuel l, traverse fuel self cur n = Ok l ->
    p <> "" /\ exists k entries, m = Dir k true entries.
Proof.
  induction 1 as [cur n | cur k b entries e child cs p m Hin Hk _ IH]; intros fuel l Ht.
  - destruct fuel as [|fuel]; [discriminate Ht|].
    destruct (string_dec cur "") as [->|Hc]; [discriminate Ht|].
    split; [exact Hc|].
    destruct n as [c|k [|] es]; [| now exists k, es |];
      rewrite traverse_unlistable in Ht by (intros k' es'; discriminate); discriminate Ht.
  - destruct fuel as [|fuel]; [discriminate Ht|].
    destruct (string_dec cur "") as [->|Hc]; [discriminate Ht|].
    destruct b;
      [|rewrite traverse_unlistable in Ht by (intros k' es'; discriminate); discriminate Ht].
    rewrite traverse_listed in Ht by exact Hc.
    destruct (flat_mapM _ _) as [r| |] eqn:Hf; try discriminate Ht.
    destruct (flat_mapM_ok_inv _ _ _ Hf (e, child)) as [y Hy].
    { apply filter_In. now split. }
    exact (IH _ _ Hy).
Qed.

(** When every directory it visits can be listed, a traversal with enough
    fuel returns the selection. *)
Lemma traverse_ok (fuel : nat) :
  forall cur n, depth n < fuel -> cur <> "" ->
    (forall cs p m, visits self cur n cs p m -> exists k entries, m = Dir k true entries) ->
    traverse fuel self cur n = Ok (selection self cur n).
Proof.
  induction fuel as [|fuel IH]; intros cur n Hd Hc Hv; [lia|].
  destruct (Hv [] cur n (visits_here self cur n)) as [k [entries ->]].
  rewrite traverse_listed by exact Hc.
  rewrite (flat_mapM_ok _ (fun d => selection self (os_path_join cur (fst d)) (snd d))).
  - simpl. now rewrite flat_map_filter.
  - intros [e child] Hin. apply filter_In in Hin. destruct Hin as [Hin Hk]. simpl.
    apply IH.
    + pose proof (depth_entry k true entries e child Hin). simpl in *. lia.
    + now destruct (kept_dir_inv cur e child Hk) as (? & _).
    + intros cs p m Hvis. apply (Hv (e :: cs) p m). econstructor; eassumption.
Qed.


Lemma all_listable_visits (cur : string) (n : node) (cs : list string) (p : string) (m : node) :
  visits self cur n cs p m -> all_listable n = true -> all_listable m = true.
Proof.
  induction 1 as [cur n | cur k b entries e child cs p m Hin Hk _ IH]; intros Ha; [exact Ha|].
  apply IH. simpl in Ha. apply andb_true_iff in Ha. destruct Ha as [_ Ha].
  rewrite forallb_forall in Ha. exact (Ha _ Hin).
Qed.

Lemma visits_isdir (cur : string) (n : node) (cs : list string) (p : string) (m : node) :
  visits self cur n cs p m -> isdir n = true -> isdir m = true.
Proof.
  induction 1 as [cur n | cur k b entries e child cs p m Hin Hk _ IH]; intros Hd; [exact Hd|].
  apply IH. now destruct (kept_dir_inv cur e child Hk) as (_ & ? & _).
Qed.

Lemma traverse_all_listable (fuel : nat) (cur : string) (n : node) :
  depth n < fuel -> cur <> "" -> isdir n = true -> all_listable n = true ->
  traverse fuel self cur n = Ok (selection self cur n).
Proof.
  intros Hd Hc Hdir Ha. apply traverse_ok; trivial.
  intros cs p m Hv.
  pose proof (all_listable_visits _ _ _ _ _ Hv Ha) as Hm.
  pose proof (visits_isdir _ _ _ _ _ Hv Hdir) as Hdm.
  destruct m as [c|k b entries]; [discriminate Hdm|].
  simpl in Hm. destruct b; [now exists k, entries | discriminate Hm].
Qed.

End TraversalResult.

(** ** Valid names and the paths built from them *)

Lemma valid_name_inv (e : string) :
  valid_name e = true -> e <> "" /\ has_sep e = false.
Proof.
  unfold valid_name, truthy. intros H.
  apply andb_true_iff in H. destruct H as [H _].
  apply andb_true_iff in H. destruct H as [H _].
  apply andb_true_iff in H. destruct H as [H1 H2].
  apply negb_true_iff in H1, H2. apply String.eqb_neq in H1. now split.
Qed.

Lemma valid_name_not_dot (e : string) : valid_name e = true -> e <> ".".
Proof.
  unfold valid_name. intros H.
  apply andb_true_iff in H. destruct H as [H _].
  apply andb_true_iff in H. destruct H as [_ H].
  apply negb_true_iff in H. now apply String.eqb_neq.
Qed.

Lemma sepfree_not_absolute (e : string) : has_sep e = false -> startswith e "/" = false.
Proof.
  destruct e as [|c e]; [reflexivity|]. intros H. simpl in H.
  apply orb_false_iff in H. destruct H as [H _]. apply Ascii.eqb_neq in H.
  rewrite startswith_cons. destruct (ascii_dec "/" c) as [E|]; [|reflexivity].
  now elim H.
Qed.

Lemma sepfree_endswith (e : string) : has_sep e = false -> endswith_sep e = false.
Proof.
  induction e as [|c e IH]; [reflexivity|]. simpl. intros H.
  apply orb_false_iff in H. destruct H as [H1 H2].
  destruct e; [exact H1 | now apply IH].
Qed.

Lemma endswith_sep_append (a e : string) : e <> "" -> endswith_sep (a ++ e) = endswith_sep e.
Proof.
  intros He. induction a as [|c a IH]; [reflexivity|].
  change (String c a ++ e) with (String c (a ++ e)).
  destruct (a ++ e) as [|c' s] eqn:E; [|exact IH].
  destruct a; [now elim He | discriminate E].
Qed.

Lemma join_valid (cur e : string) :
  has_sep e = false -> os_path_join cur e = join_base cur ++ e.
Proof.
  intros H. unfold os_path_join, join_base. rewrite (sepfree_not_absolute e H).
  destruct ((cur =? "") || endswith_sep cur); [reflexivity|].
  now rewrite append_assoc.
Qed.

Lemma join_base_join (cur e : string) :
  valid_name e = true -> join_base (os_path_join cur e) = join_base cur ++ e ++ "/".
Proof.
  intros H. destruct (valid_name_inv e H) as [Hne Hs].
  rewrite (join_valid cur e Hs). unfold join_base at 1.
  rewrite (endswith_sep_append _ e Hne), (sepfree_endswith e Hs), orb_false_r.
  destruct (join_base cur ++ e =? "") eqn:E.
  - apply String.eqb_eq in E. apply (f_equal String.length) in E.
    rewrite length_append in E. destruct e; [now elim Hne | simpl in E; lia].
  - now rewrite append_assoc.
Qed.

Lemma concat_cons (e : string) (l : list string) :
  String.concat "/" (e :: l)
  = e ++ match l with [] => "" | _ :: _ => "/" ++ String.concat "/" l end.
Proof.
  destruct l; simpl; [now rewrite append_empty_r | reflexivity].
Qed.

Lemma path_of_cons (cur e : string) (cs : list string) :
  path_of cur (e :: cs) = path_of (os_path_join cur e) cs.
Proof. reflexivity. Qed.

Lemma path_of_closed (cs : list string) :
  forall cur, Forall (fun e => valid_name e = true) cs -> cs <> [] ->
    path_of cur cs = join_base cur ++ String.concat "/" cs.
Proof.
  induction cs as [|e cs IH]; intros cur Hv Hne; [now elim Hne|].
  inversion Hv as [|? ? He Hcs]; subst.
  rewrite path_of_cons, concat_cons. destruct cs as [|e' cs].
  - simpl. rewrite append_empty_r. apply join_valid. now destruct (valid_name_inv e He).
  - rewrite IH by (trivial; discriminate).
    rewrite (join_base_join cur e He), !append_assoc. reflexivity.
Qed.

Lemma segment_unique (e : string) :
  forall e' r r',
    has_sep e = false -> has_sep e' = false ->
    (r = "" \/ exists t, r = String sep t) ->
    (r' = "" \/ exists t, r' = String sep t) ->
    e ++ r = e' ++ r' -> e = e' /\ r = r'.
Proof.
  induction e as [|c e IH]; intros e' r r' Hs Hs' Hr Hr' E.
  - destruct e' as [|c' e']; [now split|]. simpl in E, Hs'.
    apply orb_false_iff in Hs'. destruct Hs' as [Hc _].
    destruct Hr as [-> | [t ->]]; [discriminate E|].
    injection E as E _. subst c'. now rewrite Ascii.eqb_refl in Hc.
  - destruct e' as [|c' e'].
    + simpl in E, Hs. apply orb_false_iff in Hs. destruct Hs as [Hc _].
      destruct Hr' as [-> | [t ->]]; [discriminate E|].
      injection E as E _. subst c. now rewrite Ascii.eqb_refl in Hc.
    + simpl in E, Hs, Hs'. injection E as -> E.
      apply orb_false_iff in Hs, Hs'.
      destruct (IH e' r r') as [-> ->]; tauto.
Qed.

Lemma concat_sep_inj (l1 : list string) :
  forall l2,
    Forall (fun e => valid_name e = true) l1 ->
    Forall (fun e => valid_name e = true) l2 ->
    l1 <> [] -> l2 <> [] ->
    String.concat "/" l1 = String.concat "/" l2 -> l1 = l2.
Proof.
  induction l1 as [|e t1 IH]; intros l2 H1 H2 N1 N2 E; [now elim N1|].
  destruct l2 as [|e' t2]; [now elim N2|].
  inversion H1 as [|? ? He Ht1]; inversion H2 as [|? ? He' Ht2]; subst.
  rewrite !concat_cons in E.
  destruct (valid_name_inv e He) as [_ Hs]. destruct (valid_name_inv e' He') as [_ Hs'].
  apply segment_unique in E; trivial.
  - destruct E as [-> E]. f_equal.
    destruct t1 as [|x1 t1], t2 as [|x2 t2]; try reflexivity; try discriminate E.
    injection E as E. apply IH; trivial; discriminate.
  - destruct t1; [now left | right; eexists; reflexivity].
  - destruct t2; [now left | right; eexists; reflexivity].
Qed.

Lemma join_base_length (cur : string) : String.length cur <= String.length (join_base cur).
Proof.
  unfold join_base. destruct ((cur =? "") || endswith_sep cur); [lia|].
  rewrite length_append. lia.
Qed.

Lemma path_of_not_self (cur : string) (cs : list string) :
  Forall (fun e => valid_name e = true) cs -> cs <> [] -> path_of cur cs <> cur.
Proof.
  intros Hv Hne E. rewrite path_of_closed in E by trivial.
  apply (f_equal String.length) in E. rewrite length_append in E.
  pose proof (join_base_length cur) as Hl.
  destruct cs as [|e cs]; [now elim Hne|].
  inversion Hv as [|? ? He _]; subst. destruct (valid_name_inv e He) as [Hn _].
  pose proof (concat_nonempty e cs Hn) as Hc.
  destruct (String.concat "/" (e :: cs)); [now elim Hc | simpl in E; lia].
Qed.

Lemma path_of_inj (cur : string) (cs1 cs2 : list string) :
  Forall (fun e => valid_name e = true) cs1 ->
  Forall (fun e => valid_name e = true) cs2 ->
  path_of cur cs1 = path_of cur cs2 -> cs1 = cs2.
Proof.
  intros H1 H2 E. destruct cs1 as [|e1 t1], cs2 as [|e2 t2]; [reflexivity | | |].
  - symmetry in E. apply path_of_not_self in E; [destruct E | trivial | discriminate].
  - apply path_of_not_self in E; [destruct E | trivial | discriminate].
  - rewrite !path_of_closed in E by (trivial; discriminate).
    apply append_inv_head in E. apply concat_sep_inj in E; trivial; discriminate.
Qed.

(** ** Relative paths *)

Lemma split_sep_nonempty (s : string) : split_sep s <> [].
Proof.
  destruct s as [|c s]; simpl; [discriminate|].
  destruct (Ascii.eqb c sep); [discriminate|]. destruct (split_sep s); discriminate.
Qed.

Lemma split_sep_app (a b : string) :
  split_sep (a ++ String sep b) = (split_sep a ++ split_sep b)%list.
Proof.
  induction a as [|c a IH].
  - simpl. reflexivity.
  - change (String c a ++ String sep b) with (String c (a ++ String sep b)).
    cbn [split_sep]. rewrite IH.
    destruct (Ascii.eqb c sep); [reflexivity|].
    pose proof (split_sep_nonempty a) as Hn.
    destruct (split_sep a) as [|seg rest]; [now elim Hn | reflexivity].
Qed.

Lemma components_app (a b : string) :
  components (a ++ String sep b) = (components a ++ components b)%list.
Proof. unfold components. now rewrite split_sep_app, filter_app. Qed.

Lemma split_sep_sepfree (e : string) : has_sep e = false -> split_sep e = [e].
Proof.
  induction e as [|c e IH]; [reflexivity|]. simpl. intros H.
  apply orb_false_iff in H. destruct H as [Hc He]. rewrite Hc, (IH He). reflexivity.
Qed.

Lemma components_valid (e : string) : valid_name e = true -> components e = [e].
Proof.
  intros H. destruct (valid_name_inv e H) as [Hne Hs].
  unfold components. rewrite (split_sep_sepfree e Hs). simpl.
  unfold truthy. apply String.eqb_neq in Hne. now rewrite Hne.
Qed.

Lemma components_concat (cs : list string) :
  Forall (fun e => valid_name e = true) cs -> components (String.concat "/" cs) = cs.
Proof.
  induction 1 as [|e cs He _ IH]; [reflexivity|].
  rewrite concat_cons. destruct cs as [|e' cs].
  - rewrite append_empty_r. now apply components_valid.
  - change ("/" ++ String.concat "/" (e' :: cs)) with (String sep (String.concat "/" (e' :: cs))).
    rewrite components_app, IH, (components_valid e He). reflexivity.
Qed.

Lemma endswith_sep_inv (s : string) :
  endswith_sep s = true -> exists t, s = t ++ "/".
Proof.
  induction s as [|c s IH]; [discriminate|]. simpl.
  destruct s as [|c' s].
  - intros H. apply Ascii.eqb_eq in H. subst c. now exists "".
  - intros H. destruct (IH H) as [t Ht]. exists (String c t). simpl. now rewrite <- Ht.
Qed.

Lemma components_join_base (top : string) (x : string) :
  components (join_base top ++ x) = (components top ++ components x)%list.
Proof.
  unfold join_base. destruct (top =? "") eqn:E.
  - apply String.eqb_eq in E. subst top. reflexivity.
  - simpl. destruct (endswith_sep top) eqn:Hs.
    + destruct (endswith_sep_inv top Hs) as [t ->].
      rewrite append_assoc. change ("/" ++ x) with (String sep x).
      rewrite components_app.
      change (t ++ "/") with (t ++ String sep ""). rewrite components_app.
      simpl. now rewrite app_nil_r.
    + rewrite append_assoc. change ("/" ++ x) with (String sep x). apply components_app.
Qed.

Lemma common_len_app (l cs : list string) : common_len l (l ++ cs) = List.length l.
Proof.
  induction l as [|x l IH]; simpl; [now destruct cs|].
  now rewrite String.eqb_refl, IH.
Qed.

Lemma relpath_below (top : string) (cs : list string) :
  Forall (fun e => valid_name e = true) cs -> cs <> [] ->
  os_path_relpath (path_of top cs) top = String.concat "/" cs.
Proof.
  intros Hv Hne. rewrite path_of_closed by trivial.
  unfold os_path_relpath. rewrite components_join_base, (components_concat cs Hv).
  rewrite common_len_app, Nat.sub_diag, skipn_app, skipn_all, Nat.sub_diag. simpl.
  destruct cs; [now elim Hne | reflexivity].
Qed.

Lemma concat_snoc (cs : list string) (e : string) :
  cs <> [] -> String.concat "/" (cs ++ [e]) = String.concat "/" cs ++ "/" ++ e.
Proof.
  induction cs as [|x cs IH]; intros Hne; [now elim Hne|].
  change ((x :: cs) ++ [e])%list with (x :: (cs ++ [e]))%list. rewrite !concat_cons.
  destruct cs as [|y cs]; [simpl; now rewrite append_empty_r|].
  rewrite IH by discriminate.
  change ((y :: cs) ++ [e])%list with (y :: (cs ++ [e]))%list.
  now rewrite !append_assoc.
Qed.

Lemma concat_endswith (cs : list string) :
  Forall (fun e => valid_name e = true) cs -> endswith_sep (String.concat "/" cs) = false.
Proof.
  induction 1 as [|e cs He Hcs IH]; [reflexivity|].
  destruct (valid_name_inv e He) as [_ Hs].
  rewrite concat_cons. destruct cs as [|e' cs].
  - rewrite append_empty_r. now apply sepfree_endswith.
  - rewrite endswith_sep_append by discriminate.
    inversion Hcs as [|? ? He' _]; subst. destruct (valid_name_inv e' He') as [Hne' _].
    pose proof (concat_nonempty e' cs Hne') as Hc.
    change ("/" ++ String.concat "/" (e' :: cs)) with (String sep (String.concat "/" (e' :: cs))).
    destruct (String.concat "/" (e' :: cs)) eqn:E; [now elim Hc | exact IH].
Qed.

Lemma concat_not_dot (cs : list string) :
  Forall (fun e => valid_name e = true) cs -> String.concat "/" cs <> ".".
Proof.
  intros Hv. destruct Hv as [|e cs He Hcs]; [discriminate|].
  rewrite concat_cons. destruct cs as [|e' cs].
  - rewrite append_empty_r. now apply valid_name_not_dot.
  - destruct (valid_name_inv e He) as [Hne _]. intros E.
    apply (f_equal String.length) in E. rewrite length_append in E.
    destruct e; [now elim Hne | simpl in E; lia].
Qed.

(** The prefix registered for a directory below the root is [/] followed by
    its relative path, and does not end with a separator. *)
Lemma scope_prefix_below (top : string) (cs : list string) :
  Forall (fun e => valid_name e = true) cs -> cs <> [] ->
  scope_prefix (path_of top cs) top = "/" ++ String.concat "/" cs
  /\ endswith_sep (scope_prefix (path_of top cs) top) = false.
Proof.
  intros Hv Hne. unfold scope_prefix. rewrite (relpath_below top cs Hv Hne).
  pose proof (concat_not_dot cs Hv) as Hd. apply String.eqb_neq in Hd. rewrite Hd.
  split; [reflexivity|].
  destruct cs as [|e cs]; [now elim Hne|].
  inversion Hv as [|? ? He _]; subst. destruct (valid_name_inv e He) as [Hn _].
  pose proof (concat_nonempty e cs Hn) as Hc.
  change ("/" ++ String.concat "/" (e :: cs)) with (String sep (String.concat "/" (e :: cs))).
  pose proof (concat_endswith (e :: cs) Hv) as He'.
  destruct (String.concat "/" (e :: cs)); [now elim Hc | exact He'].
Qed.

Lemma path_of_snoc (cur : string) (cs : list string) (e : string) :
  path_of cur (cs ++ [e]) = os_path_join (path_of cur cs) e.
Proof. unfold path_of. now rewrite fold_left_app. Qed.

(** Below the project root the queries of the traversal are [/] followed by
    the path of the entry relative to the root. *)
Lemma nested_queries (root : string) (cs : list string) (e : string) :
  Forall (fun x => valid_name x = true) cs -> cs <> [] -> valid_name e = true ->
  dir_query (os_path_relpath (path_of root cs) root) e
  = claimed_dir_query root (os_path_join (path_of root cs) e)
  /\ file_query (os_path_relpath (path_of root cs) root) e
     = claimed_file_query root (os_path_join (path_of root cs) e).
Proof.
  intros Hv Hne He. unfold dir_query, file_query, claimed_dir_query, claimed_file_query.
  rewrite <- path_of_snoc.
  rewrite (relpath_below root cs Hv Hne).
  rewrite (relpath_below root (cs ++ [e]))
    by (try (apply Forall_app; split; [exact Hv | now repeat constructor]);
        try (now destruct cs)).
  rewrite (concat_snoc cs e Hne).
  destruct (valid_name_inv e He) as [_ Hs].
  rewrite (join_valid _ e Hs). unfold join_base.
  rewrite (concat_endswith cs Hv), orb_false_r.
  destruct cs as [|x cs]; [now elim Hne|].
  inversion Hv as [|? ? Hx _]; subst. destruct (valid_name_inv x Hx) as [Hn _].
  pose proof (concat_nonempty x cs Hn) as Hc. apply String.eqb_neq in Hc. rewrite Hc.
  rewrite !append_assoc. split; reflexivity.
Qed.

(** ** Positions in a tree *)

Lemma distinct_NoDup (l : list string) : distinct l = true -> NoDup l.
Proof.
  induction l as [|x l IH]; intros H; [constructor|].
  simpl in H. apply andb_true_iff in H. destruct H as [H1 H2].
  constructor; [|now apply IH].
  intros Hin. apply negb_true_iff in H1.
  assert (existsb (String.eqb x) l = true); [|congruence].
  apply existsb_exists. exists x. split; [exact Hin | apply String.eqb_refl].
Qed.

Lemma names_unique {A : Type} (l : list (string * A)) (e : string) (x y : A) :
  NoDup (map fst l) -> In (e, x) l -> In (e, y) l -> x = y.
Proof.
  induction l as [|[e' z] l IH]; intros Hn Hx Hy; [destruct Hx|].
  simpl in Hn. inversion Hn as [|? ? Hnot Hn']; subst.
  destruct Hx as [Ex|Hx], Hy as [Ey|Hy].
  - congruence.
  - injection Ex as -> ->. elim Hnot. apply in_map_iff. now exists (e, y).
  - injection Ey as -> ->. elim Hnot. apply in_map_iff. now exists (e, x).
  - now apply IH.
Qed.

Lemma well_formed_dir (k : dirkind) (b : bool) (entries : list (string * node)) :
  well_formed (Dir k b entries) = true ->
  NoDup (map fst entries)
  /\ forall e child, In (e, child) entries ->
       valid_name e = true /\ well_formed child = true.
Proof.
  simpl. intros H. apply andb_true_iff in H. destruct H as [H1 H2]. split.
  - now apply distinct_NoDup.
  - intros e child Hin. rewrite forallb_forall in H2. specialize (H2 _ Hin).
    simpl in H2. now apply andb_true_iff in H2.
Qed.

Lemma located_path (cur : string) (n : node) (cs : list string) (p : string) (m : node) :
  located cur n cs p m -> p = path_of cur cs.
Proof.
  induction 1 as [cur n | cur k b entries e child cs p m Hin _ IH]; [reflexivity|].
  now rewrite path_of_cons.
Qed.

Lemma located_valid (cur : string) (n : node) (cs : list string) (p : string) (m : node) :
  located cur n cs p m -> well_formed n = true ->
  Forall (fun e => valid_name e = true) cs /\ well_formed m = true.
Proof.
  induction 1 as [cur n | cur k b entries e child cs p m Hin _ IH]; intros Hw.
  - split; [constructor | exact Hw].
  - destruct (well_formed_dir _ _ _ Hw) as [_ Hall].
    destruct (Hall _ _ Hin) as [He Hc]. destruct (IH Hc) as [Hcs Hm].
    split; [now constructor | exact Hm].
Qed.

Lemma located_unique (cur : string) (n : node) (cs : list string)
    (p1 p2 : string) (m1 m2 : node) :
  well_formed n = true ->
  located cur n cs p1 m1 -> located cur n cs p2 m2 -> m1 = m2.
Proof.
  intros Hw H1. revert p2 m2 Hw.
  induction H1 as [cur n | cur k b entries e child cs p m Hin _ IH]; intros p2 m2 Hw H2.
  - now inversion H2.
  - inversion H2 as [|? ? ? ? ? child' ? ? ? Hin' H2']; subst.
    destruct (well_formed_dir _ _ _ Hw) as [Hn Hall].
    assert (child' = child) by (eapply names_unique; eassumption). subst child'.
    destruct (Hall _ _ Hin) as [_ Hc]. exact (IH _ _ Hc H2').
Qed.

Lemma located_app (cur : string) (n : node) (cs : list string) (p : string) (m : node) :
  located cur n cs p m ->
  forall cs' p' m', located p m cs' p' m' -> located cur n (cs ++ cs') p' m'.
Proof.
  induction 1 as [cur n | cur k b entries e child cs p m Hin _ IH]; intros cs' p' m' H';
    [exact H'|].
  simpl. econstructor; [exact Hin | now apply IH].
Qed.

Section Positions.

Context {lib : Pathspec}.

Variable self : FileSelector.

Lemma selected_located (cur : string) (n : node) (cs : list string) (p : string) :
  selected self cur n cs p -> cs <> [] /\ exists c, located cur n cs p (File c).
Proof.
  induction 1 as [cur k b entries e c Hin Hk | cur k b entries e child cs p Hin Hk _ IH].
  - split; [discriminate|]. exists c. econstructor; [exact Hin | constructor].
  - split; [discriminate|]. destruct IH as [_ [c Hl]]. exists c.
    econstructor; eassumption.
Qed.

Lemma visits_located (cur : string) (n : node) (cs : list string) (p : string) (m : node) :
  visits self cur n cs p m -> located cur n cs p m.
Proof.
  induction 1 as [cur n | cur k b entries e child cs p m Hin Hk _ IH];
    [constructor | econstructor; eassumption].
Qed.

Lemma selection_selected (n : node) :
  forall cur p, In p (selection self cur n) <-> exists cs, selected self cur n cs p.
Proof.
  induction n as [c|k b entries IH] using node_induction; intros cur p.
  - split; [intros [] | intros [cs H]; inversion H].
  - simpl. rewrite in_app_iff, in_map_iff, in_flat_map. split.
    + intros [([e child] & <- & Hin) | ([e child] & Hin & Hp)].
      * apply filter_In in Hin. destruct Hin as [Hin Hk].
        destruct (kept_file_inv self cur e child Hk) as (_ & Hd & _).
        destruct child as [c|? ? ?]; [|discriminate Hd].
        exists [e]. simpl. econstructor; eassumption.
      * destruct (kept_dir self cur (e, child)) eqn:Hk; [|destruct Hp].
        rewrite Forall_forall in IH. apply (IH _ Hin) in Hp. destruct Hp as [cs Hs].
        exists (e :: cs). econstructor; eassumption.
    + intros [cs H]. inversion H as [? ? ? ? e c Hin Hk | ? ? ? ? e child cs' ? Hin Hk Hs]; subst.
      * left. exists (e, File c). split; [reflexivity|]. apply filter_In. now split.
      * right. exists (e, child). split; [exact Hin|]. rewrite Hk.
        rewrite Forall_forall in IH. apply (IH _ Hin). now exists cs'.
Qed.

Lemma selected_visits (cur : string) (n : node) (cs : list string) (p : string) :
  selected self cur n cs p ->
  forall pre e post, cs = (pre ++ e :: post)%list -> post <> [] ->
    exists p' m', visits self cur n (pre ++ [e]) p' m'.
Proof.
  induction 1 as [cur k b entries e c Hin Hk | cur k b entries e child cs p Hin Hk Hs IH];
    intros pre e0 post E Hne.
  - destruct pre as [|x pre]; simpl in E.
    + injection E as _ <-. now elim Hne.
    + injection E as _ E. now destruct pre.
  - destruct pre as [|x pre]; simpl in E.
    + injection E as <- _. exists (os_path_join cur e), child.
      econstructor; [exact Hin | exact Hk | constructor].
    + injection E as <- E. destruct (IH _ _ _ E Hne) as (p' & m' & Hv).
      exists p', m'. simpl. econstructor; eassumption.
Qed.

Lemma visits_selected (cur : string) (n : node) (cs : list string) (p : string) (m : node) :
  visits self cur n cs p m ->
  forall k b listing e c,
    m = Dir k b listing -> In (e, File c) listing -> kept_file self p (e, File c) = true ->
    selected self cur n (cs ++ [e]) (os_path_join p e).
Proof.
  induction 1 as [cur n | cur k0 b0 entries e0 child cs p m Hin Hk _ IH];
    intros k b listing e c -> Hin' Hk'.
  - simpl. econstructor; eassumption.
  - simpl. econstructor; [exact Hin | exact Hk |]. eapply IH; [reflexivity | eassumption..].
Qed.

Lemma flat_mapM_ok_eq {A B : Type} (f : A -> outcome (list B)) (g : A -> list B) (l : list A) :
  forall r, flat_mapM f l = Ok r ->
    (forall x y, In x l -> f x = Ok y -> y = g x) -> r = flat_map g l.
Proof.
  induction l as [|x l IH]; intros r H Hg; simpl in H.
  - now injection H as <-.
  - destruct (f x) as [ys| |] eqn:Hx; simpl in H; try discriminate H.
    destruct (flat_mapM f l) as [r'| |] eqn:Hl; simpl in H; try discriminate H.
    injection H as <-. simpl.
    rewrite (Hg x ys (or_introl eq_refl) Hx).
    rewrite (IH r' eq_refl) by (intros; eapply Hg; [now right | eassumption]).
    reflexivity.
Qed.

(** Whatever the fuel, a traversal that returns returns the selection. *)
Lemma traverse_sound (fuel : nat) :
  forall cur n l, traverse fuel self cur n = Ok l -> l = selection self cur n.
Proof.
  induction fuel as [|fuel IH]; intros cur n l Ht; [discriminate Ht|].
  destruct (string_dec cur "") as [->|Hc]; [discriminate Ht|].
  destruct n as [c|k [|] entries];
    try (rewrite traverse_unlistable in Ht by (intros k' es'; discriminate); discriminate Ht).
  rewrite traverse_listed in Ht by exact Hc.
  destruct (flat_mapM _ _) as [r| |] eqn:Hf; try discriminate Ht.
  injection Ht as <-. simpl. rewrite <- flat_map_filter. f_equal.
  apply (flat_mapM_ok_eq _ _ _ _ Hf). intros x y _ Hx. now apply IH.
Qed.

End Positions.

(** ** No path is selected twice *)

Lemma NoDup_flat_map_tagged {A B : Type} (g : A -> list B) (T : A -> B -> Prop) (l : list A) :
  NoDup l ->
  (forall x, In x l -> NoDup (g x)) ->
  (forall x p, In x l -> In p (g x) -> T x p) ->
  (forall x y p, In x l -> In y l -> T x p -> T y p -> x = y) ->
  NoDup (flat_map g l).
Proof.
  induction l as [|x l IH]; intros Hn Hg HT Hu; simpl; [constructor|].
  inversion Hn as [|? ? Hx Hl]; subst.
  apply NoDup_app.
  - apply Hg. now left.
  - apply IH; trivial.
    + intros y Hy. apply Hg. now right.
    + intros y p Hy. apply HT. now right.
    + intros y z p Hy Hz. apply Hu; now right.
  - intros p Hp Hq. apply in_flat_map in Hq. destruct Hq as (y & Hy & Hq).
    assert (x = y).
    { apply (Hu x y p); [now left | now right | apply HT; [now left | exact Hp]
                        | apply HT; [now right | exact Hq]]. }
    subst y. contradiction.
Qed.

Section NoDuplicates.

Context {lib : Pathspec}.

Variable self : FileSelector.

Lemma selection_below_entry (cur e : string) (child : node) (p : string) :
  valid_name e = true -> well_formed child = true ->
  In p (selection self (os_path_join cur e) child) ->
  below_entry cur (e, child) p.
Proof.
  intros He Hw Hp. apply selection_selected in Hp. destruct Hp as [cs Hs].
  destruct (selected_located self _ _ _ _ Hs) as [Hne [c Hl]].
  destruct (located_valid _ _ _ _ _ Hl Hw) as [Hcs _].
  exists cs. split; [exact Hne|]. split; [now constructor|].
  rewrite path_of_cons. now apply located_path in Hl.
Qed.

Lemma selection_NoDup (n : node) :
  forall cur, well_formed n = true -> NoDup (selection self cur n).
Proof.
  induction n as [c|k b entries IH] using node_induction; intros cur Hw; [constructor|].
  destruct (well_formed_dir _ _ _ Hw) as [Hn Hall].
  rewrite Forall_forall in IH. simpl.
  assert (HT : forall en p, In en entries ->
             In p (if kept_dir self cur en
                   then selection self (os_path_join cur (fst en)) (snd en) else []) ->
             below_entry cur en p).
  { intros [e child] p Hin Hp. destruct (kept_dir self cur (e, child)); [|destruct Hp].
    destruct (Hall _ _ Hin) as [He Hc]. now apply selection_below_entry. }
  apply NoDup_app.
  - apply NoDup_map_NoDup_ForallPairs.
    + intros [e1 c1] [e2 c2] H1 H2 E. simpl in E.
      apply filter_In in H1, H2. destruct H1 as [H1 _], H2 as [H2 _].
      destruct (Hall _ _ H1) as [V1 _]. destruct (Hall _ _ H2) as [V2 _].
      rewrite !join_valid in E by (now apply valid_name_inv).
      apply append_inv_head in E. subst e2. f_equal.
      eapply names_unique; eassumption.
    + apply NoDup_filter. eapply NoDup_map_inv. exact Hn.
  - apply (NoDup_flat_map_tagged _ (below_entry cur)).
    + eapply NoDup_map_inv. exact Hn.
    + intros [e child] Hin. destruct (kept_dir self cur (e, child)); [|constructor].
      apply (IH _ Hin). now destruct (Hall _ _ Hin).
    + intros en p Hin Hp. now apply HT.
    + intros [e1 c1] [e2 c2] p H1 H2 (cs1 & _ & V1 & E1) (cs2 & _ & V2 & E2).
      cbn [fst] in *. rewrite E1 in E2. apply path_of_inj in E2; trivial.
      injection E2 as -> _. f_equal. eapply names_unique; eassumption.
  - intros p Hp Hq. apply in_map_iff in Hp. destruct Hp as ([e c] & <- & Hin).
    apply filter_In in Hin. destruct Hin as [Hin _]. destruct (Hall _ _ Hin) as [He _].
    apply in_flat_map in Hq. destruct Hq as (en & Hen & Hq).
    destruct (HT _ _ Hen Hq) as (cs & Hne & V & E). cbn [fst] in E.
    change (os_path_join cur e) with (path_of cur [e]) in E.
    apply path_of_inj in E; trivial; [|now repeat constructor].
    injection E as _ <-. now elim Hne.
Qed.

End NoDuplicates.

(** ** Trees that the traversal cannot tell apart *)

Lemma flat_mapM_related {A B C : Type} (f : A -> outcome (list C)) (g : B -> outcome (list C))
    (la : list A) (lb : list B) :
  Forall2 (fun a b => f a = g b) la lb -> flat_mapM f la = flat_mapM g lb.
Proof.
  induction 1 as [|a b la lb Hab _ IH]; simpl; [reflexivity|]. now rewrite Hab, IH.
Qed.

Section Agree.

Context {lib : Pathspec}.

Variable self : FileSelector.

Lemma kept_dir_same_kind (cur : string) (en en' : string * node) :
  fst en = fst en' -> isdir (snd en) = isdir (snd en') ->
  kept_dir self cur en = kept_dir self cur en'.
Proof. intros H1 H2. unfold kept_dir. now rewrite H1, H2. Qed.

Lemma kept_file_same_kind (cur : string) (en en' : string * node) :
  fst en = fst en' -> isdir (snd en) = isdir (snd en') ->
  kept_file self cur en = kept_file self cur en'.
Proof. intros H1 H2. unfold kept_file. now rewrite H1, H2. Qed.

Lemma agree_files (cur : string) (entries entries' : list (string * node)) :
  Forall2 (fun en en' => fst en = fst en' /\ isdir (snd en) = isdir (snd en')
                         /\ (kept_dir self cur en = true ->
                             agree self (os_path_join cur (fst en)) (snd en) (snd en')))
          entries entries' ->
  map (fun en => os_path_join cur (fst en)) (filter (kept_file self cur) entries)
  = map (fun en => os_path_join cur (fst en)) (filter (kept_file self cur) entries').
Proof.
  induction 1 as [|en en' l l' (H1 & H2 & _) _ IH]; [reflexivity|]. simpl.
  rewrite <- (kept_file_same_kind cur en en' H1 H2).
  destruct (kept_file self cur en); simpl; now rewrite IH, ?H1.
Qed.

Lemma agree_dirs (cur : string) (entries entries' : list (string * node)) :
  Forall2 (fun en en' => fst en = fst en' /\ isdir (snd en) = isdir (snd en')
                         /\ (kept_dir self cur en = true ->
                             agree self (os_path_join cur (fst en)) (snd en) (snd en')))
          entries entries' ->
  Forall2 (fun d d' => fst d = fst d'
                       /\ agree self (os_path_join cur (fst d)) (snd d) (snd d'))
          (filter (kept_dir self cur) entries) (filter (kept_dir self cur) entries').
Proof.
  induction 1 as [|en en' l l' (H1 & H2 & H3) _ IH]; [constructor|]. simpl.
  rewrite <- (kept_dir_same_kind cur en en' H1 H2).
  destruct (kept_dir self cur en); [|exact IH].
  constructor; [split; [exact H1 | now apply H3] | exact IH].
Qed.

Lemma traverse_agree (fuel : nat) :
  forall cur n n', agree self cur n n' -> traverse fuel self cur n = traverse fuel self cur n'.
Proof.
  induction fuel as [|fuel IH]; intros cur n n' Ha; [reflexivity|].
  destruct (string_dec cur "") as [->|Hc]; [reflexivity|].
  inversion Ha as [? c c' | ? k k' b entries entries' Hall]; subst.
  - now rewrite !traverse_unlistable by (intros k es; discriminate).
  - destruct b; [|now rewrite !traverse_unlistable by (intros k0 es; discriminate)].
    rewrite !traverse_listed by exact Hc.
    rewrite (agree_files cur entries entries' Hall).
    rewrite (flat_mapM_related _
               (fun d => traverse fuel self (os_path_join cur (fst d)) (snd d))
               (filter (kept_dir self cur) entries) (filter (kept_dir self cur) entries'));
      [reflexivity|].
    eapply Forall2_impl; [|apply agree_dirs; exact Hall].
    intros d d' [H1 H2]. cbn beta. rewrite <- H1. now apply IH.
Qed.

End Agree.

(** ** The calls of the traversal *)

Lemma flat_map_logged_snd {A B C : Type} (f : A -> list C * outcome (list B)) (l : list A) :
  snd (flat_map_logged f l) = flat_mapM (fun x => snd (f x)) l.
Proof.
  induction l as [|x l IH]; simpl; [reflexivity|].
  destruct (f x) as [log [ys|e|]]; simpl; [now rewrite IH | reflexivity | reflexivity].
Qed.

Lemma flat_map_logged_in {A B C : Type} (f : A -> list C * outcome (list B)) (l : list A)
    (c : C) :
  In c (fst (flat_map_logged f l)) -> exists x, In x l /\ In c (fst (f x)).
Proof.
  induction l as [|x l IH]; simpl; [intros []|].
  destruct (f x) as [log [ys|e|]] eqn:Hx; simpl; intros H.
  - apply in_app_or in H. destruct H as [H|H].
    + exists x. split; [now left | now rewrite Hx].
    + destruct (IH H) as (y & Hy & Hc). exists y. split; [now right | exact Hc].
  - exists x. split; [now left | now rewrite Hx].
  - exists x. split; [now left | now rewrite Hx].
Qed.

Lemma flat_map_logged_ok {A B C : Type} (f : A -> list C * outcome (list B)) (l : list A) :
  forall r, flat_mapM (fun x => snd (f x)) l = Ok r ->
    fst (flat_map_logged f l) = flat_map (fun x => fst (f x)) l.
Proof.
  induction l as [|x l IH]; intros r H; simpl in *; [reflexivity|].
  destruct (f x) as [log [ys|e|]]; simpl in *; try discriminate H.
  destruct (flat_mapM (fun x => snd (f x)) l) as [r'| |]; simpl in H; try discriminate H.
  now rewrite (IH r' eq_refl).
Qed.

Lemma flat_mapM_ext {A B : Type} (f g : A -> outcome (list B)) (l : list A) :
  (forall x, f x = g x) -> flat_mapM f l = flat_mapM g l.
Proof.
  intros H. induction l as [|x l IH]; simpl; [reflexivity|]. now rewrite H, IH.
Qed.

Section Calls.

Context {lib : Pathspec}.

Variable self : FileSelector.

(** One level of [traverse_logged] on a directory that can be listed. *)
Lemma traverse_logged_listed (fuel : nat) (cur : string) (k : dirkind)
    (entries : list (string * node)) :
  cur <> "" ->
  traverse_logged (S fuel) self cur (Dir k true entries)
  = (cur :: fst (flat_map_logged
                   (fun d => traverse_logged fuel self (os_path_join cur (fst d)) (snd d))
                   (filter (kept_dir self cur) entries)),
     subdir_files <- snd (flat_map_logged
                            (fun d => traverse_logged fuel self (os_path_join cur (fst d))
                                        (snd d))
                            (filter (kept_dir self cur) entries)) ;;
     Ok (map (fun en => os_path_join cur (fst en)) (filter (kept_file self cur) entries)
         ++ subdir_files)%list).
Proof.
  intros Hc. simpl. unfold os_listdir.
  apply String.eqb_neq in Hc. rewrite Hc. simpl.
  rewrite (filterM_pure _ (kept_dir self cur)) by (intros; apply keep_dir_pure).
  simpl.
  rewrite (filterM_pure _ (kept_file self cur)) by (intros; apply keep_file_pure).
  reflexivity.
Qed.

Lemma traverse_logged_unlistable (fuel : nat) (cur : string) (n : node) :
  (forall k entries, n <> Dir k true entries) ->
  traverse_logged (S fuel) self cur n = ([cur], Raise OSError).
Proof.
  intros H. simpl. unfold os_listdir.
  destruct (cur =? ""); [reflexivity|].
  destruct n as [c|k [|] entries]; try reflexivity. now elim (H k entries).
Qed.

Lemma traverse_logged_empty_path (fuel : nat) (n : node) :
  traverse_logged (S fuel) self "" n = ([""], Raise OSError).
Proof. reflexivity. Qed.

(** The outcome of the logged traversal is that of [traverse]. *)
Lemma traverse_logged_outcome (fuel : nat) :
  forall cur n, snd (traverse_logged fuel self cur n) = traverse fuel self cur n.
Proof.
  induction fuel as [|fuel IH]; intros cur n; [reflexivity|].
  destruct (string_dec cur "") as [->|Hc]; [reflexivity|].
  destruct n as [c|k [|] entries];
    try (rewrite traverse_logged_unlistable, traverse_unlistable
           by (intros k' es; discriminate); reflexivity).
  rewrite traverse_logged_listed, traverse_listed by exact Hc.
  cbn [snd]. rewrite flat_map_logged_snd.
  now rewrite (flat_mapM_ext _
                 (fun d => traverse fuel self (os_path_join cur (fst d)) (snd d)))
    by (intros d; apply IH).
Qed.

(** Every call is on a directory that the traversal visits. *)
Lemma traverse_logged_visits (fuel : nat) :
  forall cur n c, In c (fst (traverse_logged fuel self cur n)) ->
    exists cs m, visits self cur n cs c m.
Proof.
  induction fuel as [|fuel IH]; intros cur n c Hin.
  - destruct Hin as [<-|[]]. exists [], n. constructor.
  - assert (Hhere : exists cs m, visits self cur n cs cur m)
      by (exists [], n; constructor).
    destruct (string_dec cur "") as [->|Hc].
    { rewrite traverse_logged_empty_path in Hin. now destruct Hin as [<-|[]]. }
    destruct n as [c0|k [|] entries];
      try (rewrite traverse_logged_unlistable in Hin by (intros k' es; discriminate);
           now destruct Hin as [<-|[]]).
    rewrite traverse_logged_listed in Hin by exact Hc.
    destruct Hin as [<-|Hin]; [exact Hhere|].
    apply flat_map_logged_in in Hin. destruct Hin as ([e child] & Hen & Hin).
    apply filter_In in Hen. destruct Hen as [Hen Hk]. cbn [fst snd] in Hin.
    destruct (IH _ _ _ Hin) as (cs & m & Hv).
    exists (e :: cs), m. econstructor; eassumption.
Qed.

(** A traversal that returns has been called on every directory it
    visits. *)
Lemma visits_traverse_logged (cur : string) (n : node) (cs : list string) (p : string)
    (m : node) :
  visits self cur n cs p m ->
  forall fuel l, traverse fuel self cur n = Ok l ->
    In p (fst (traverse_logged fuel self cur n)).
Proof.
  induction 1 as [cur n | cur k b entries e child cs p m Hin Hk _ IH]; intros fuel l Ht.
  - destruct fuel as [|fuel]; [discriminate Ht|]. simpl.
    destruct (_ <- os_listdir cur n ;; _) as [[dirs files]| |]; now left.
  - destruct fuel as [|fuel]; [discriminate Ht|].
    destruct (string_dec cur "") as [->|Hc]; [discriminate Ht|].
    destruct b;
      [|rewrite traverse_unlistable in Ht by (intros k' es'; discriminate); discriminate Ht].
    rewrite traverse_listed in Ht by exact Hc.
    destruct (flat_mapM _ _) as [r| |] eqn:Hf; try discriminate Ht.
    destruct (flat_mapM_ok_inv _ _ _ Hf (e, child)) as [y Hy].
    { apply filter_In. now split. }
    rewrite traverse_logged_listed by exact Hc. right.
    rewrite (flat_map_logged_ok _ _ r).
    + apply in_flat_map. exists (e, child). split; [apply filter_In; now split|].
      exact (IH _ _ Hy).
    + rewrite <- Hf. apply flat_mapM_ext. intros d. apply traverse_logged_outcome.
Qed.

End Calls.

(** ** Replacing an ignored directory *)

Lemma Forall2_map_right {A : Type} (R : A -> A -> Prop) (f : A -> A) (l : list A) :
  (forall x, In x l -> R x (f x)) -> Forall2 R l (map f l).
Proof.
  induction l as [|x l IH]; intros H; simpl; constructor.
  - apply H. now left.
  - apply IH. intros y Hy. apply H. now right.
Qed.

Lemma replace_at_isdir (n : node) (e : string) (cs : list string) (d' : node) :
  isdir (replace_at n (e :: cs) d') = isdir n.
Proof. now destruct n. Qed.

Lemma located_replace_at (cur : string) (n : node) (pcs : list string) (pp : string)
    (parent : node) :
  located cur n pcs pp parent ->
  forall kp bp listing e d d',
    parent = Dir kp bp listing -> In (e, d) listing ->
    located cur (replace_at n (pcs ++ [e]) d') (pcs ++ [e]) (os_path_join pp e) d'.
Proof.
  induction 1 as [cur n | cur k b entries e0 child cs pp parent Hin _ IH];
    intros kp bp listing e d d' -> Hd.
  - cbn [app replace_at]. eapply located_below; [|apply located_here].
    apply in_map_iff. exists (e, d). split; [|exact Hd].
    cbn [fst snd replace_at]. now rewrite String.eqb_refl.
  - cbn [app replace_at]. eapply located_below; [|eapply IH; [reflexivity | exact Hd]].
    apply in_map_iff. exists (e0, child). split; [|exact Hin].
    cbn [fst snd]. now rewrite String.eqb_refl.
Qed.

Section Replace.

Context {lib : Pathspec}.

Variable self : FileSelector.

Lemma agree_refl (n : node) : forall cur, agree self cur n n.
Proof.
  induction n as [c|k b entries IH] using node_induction; intros cur; constructor.
  induction entries as [|en entries IHe]; constructor.
  - inversion IH; subst. now repeat split.
  - apply IHe. now inversion IH.
Qed.

(** A tree and the tree with another directory in the place of one that
    the traversal does not keep. *)
Lemma agree_replace_at (cur : string) (n : node) (pcs : list string) (pp : string)
    (parent : node) :
  located cur n pcs pp parent ->
  forall kp bp listing e d d',
    parent = Dir kp bp listing -> In (e, d) listing ->
    well_formed n = true ->
    isdir d = true -> isdir d' = true ->
    kept_dir self pp (e, d) = false ->
    agree self cur n (replace_at n (pcs ++ [e]) d').
Proof.
  induction 1 as [cur n | cur k b entries e0 child cs pp parent Hin _ IH];
    intros kp bp listing e d d' -> Hd Hw Hdir Hdir' Hk.
  - cbn [app replace_at]. constructor.
    destruct (well_formed_dir _ _ _ Hw) as [Hn _].
    apply Forall2_map_right. intros [x m] Hx. cbn [fst snd].
    destruct (x =? e) eqn:E.
    + apply String.eqb_eq in E. subst x.
      assert (m = d) by (eapply names_unique; eassumption). subst m.
      cbn [fst snd]. split; [reflexivity | split; [congruence|]].
      intros H. congruence.
    + split; [reflexivity | split; [reflexivity|]]. intros _. apply agree_refl.
  - cbn [app replace_at]. constructor.
    destruct (well_formed_dir _ _ _ Hw) as [Hn Hall].
    apply Forall2_map_right. intros [x m] Hx. cbn [fst snd].
    destruct (x =? e0) eqn:E.
    + apply String.eqb_eq in E. subst x.
      assert (m = child) by (eapply names_unique; eassumption). subst m.
      cbn [fst snd]. split; [reflexivity|]. split.
      * destruct (cs ++ [e])%list as [|y ys] eqn:Ecs; [now destruct cs|].
        now rewrite replace_at_isdir.
      * intros _. eapply IH; try eassumption; [reflexivity|].
        now destruct (Hall _ _ Hin).
    + split; [reflexivity | split; [reflexivity|]]. intros _. apply agree_refl.
Qed.

End Replace.

(** ** The traversal: claims C2, C3 and C8 *)

Section Claims.

Context {lib : Pathspec}.

Variable self : FileSelector.


Lemma kept_file_iff (cur : string) (en : string * node) :
  cur <> "" ->
  (kept_file self cur en = true <->
   isdir (snd en) = false
   /\ GitIgnorer_ignore (ignorer self)
        (file_query (os_path_relpath cur (project_root (config_manager self))) (fst en))
      = Ok false).
Proof.
  intros Hc. unfold kept_file, ignored. rewrite (truthy_join cur (fst en) Hc), andb_true_l.
  rewrite ignore_existsb by apply file_query_not_root, relpath_nonempty.
  rewrite andb_true_iff, !negb_true_iff. split.
  - intros [H1 H2]. split; [exact H1 | now rewrite H2].
  - intros [H1 H2]. split; [exact H1 | now injection H2].
Qed.



Lemma pruned_not_visited (cur : string) (n : node) (pcs : list string) (pp : string)
    (parent : node) (e : string) :
  located cur n pcs pp parent ->
  well_formed n = true ->
  ignored self (dir_query (os_path_relpath pp (project_root (config_manager self))) e) = true ->
  forall more p m, ~ visits self cur n (pcs ++ e :: more) p m.
Proof.
  induction 1 as [cur n | cur k b entries e0 child cs pp parent Hin _ IH];
    intros Hw Hi more p m Hv.
  - simpl in Hv. inversion Hv as [|? ? ? ? ? child' ? ? ? Hin' Hk Hv']; subst.
    destruct (kept_dir_inv self _ _ _ Hk) as (_ & _ & Hk'). congruence.
  - simpl in Hv. inversion Hv as [|? ? ? ? ? child' ? ? ? Hin' Hk Hv']; subst.
    destruct (well_formed_dir _ _ _ Hw) as [Hn Hall].
    assert (child' = child) by (eapply names_unique; eassumption). subst child'.
    destruct (Hall _ _ Hin) as [_ Hc]. exact (IH Hc Hi more p m Hv').
Qed.

End Claims.


(** C3.  Let [d] be a directory entry, anywhere in a well-formed tree,
    whose query the registry reports ignored.  Then [traverse] is never
    called on [d] nor on anything below it: no call of the run, whether the
    run returns or raises, is on such a path, while a run that returns has
    been called on every directory that the traversal visits.  The outcome
    of the run, result or error, is the same with any other directory in
    the place of [d], be it one that cannot be listed.  And when the run
    returns, its result holds neither the path of [d] nor the path of any
    node below [d], whatever the registry says about those nodes. *)
Theorem C3_ignored_directory_is_pruned :
  forall (lib : Pathspec) (self : FileSelector) (cur : string) (n : node)
         (pcs : list string) (pp : string) (kp : dirkind) (bp : bool)
         (listing : list (string * node))
         (e : string) (kd : dirkind) (bd : bool) (des : list (string * node)),
    well_formed n = true ->
    located cur n pcs pp (Dir kp bp listing) ->
    In (e, Dir kd bd des) listing ->
    GitIgnorer_ignore (ignorer self)
      (dir_query (os_path_relpath pp (project_root (config_manager self))) e) = Ok true ->
    (forall more p m, ~ visits self cur n (pcs ++ e :: more) p m)
    /\ (forall fuel, snd (traverse_logged fuel self cur n) = traverse fuel self cur n)
    /\ (forall fuel c more p m,
          In c (fst (traverse_logged fuel self cur n)) ->
          located cur n (pcs ++ e :: more) p m -> c <> p)
    /\ (forall fuel l cs p m,
          traverse fuel self cur n = Ok l ->
          visits self cur n cs p m ->
          In p (fst (traverse_logged fuel self cur n)))
    /\ (forall d',
          isdir d' = true ->
          located cur (replace_at n (pcs ++ [e]) d') (pcs ++ [e]) (os_path_join pp e) d'
          /\ forall fuel,
               traverse fuel self cur (replace_at n (pcs ++ [e]) d')
               = traverse fuel self cur n)
    /\ (forall fuel l, traverse fuel self cur n = Ok l ->
          forall more p m, located cur n (pcs ++ e :: more) p m -> ~ In p l).
Proof.
  intros lib self cur n pcs pp kp bp listing e kd bd des Hw Hl Hin Hi.
  rewrite ignore_existsb in Hi by apply dir_query_not_root. injection Hi as Hi.
  fold (ignored self) in Hi.
  pose proof (pruned_not_visited self _ _ _ _ _ e Hl Hw Hi) as Hnv.
  split; [exact Hnv|].
  split; [intros fuel; apply traverse_logged_outcome|].
  split; [|split; [|split]].
  - intros fuel c more p m Hc Hm E. subst c.
    destruct (traverse_logged_visits self fuel _ _ _ Hc) as (cs & m' & Hv).
    pose proof (visits_located self _ _ _ _ _ Hv) as Hl'.
    destruct (located_valid _ _ _ _ _ Hm Hw) as [V _].
    destruct (located_valid _ _ _ _ _ Hl' Hw) as [V' _].
    pose proof (located_path _ _ _ _ _ Hm) as E.
    rewrite (located_path _ _ _ _ _ Hl') in E.
    apply path_of_inj in E; trivial. subst cs.
    exact (Hnv more p m' Hv).
  - intros fuel l cs p m Ht Hv. exact (visits_traverse_logged self _ _ _ _ _ Hv _ _ Ht).
  - intros d' Hd'. split.
    + eapply located_replace_at; [exact Hl | reflexivity | exact Hin].
    + intros fuel. symmetry. apply traverse_agree.
      eapply agree_replace_at; [exact Hl | reflexivity | exact Hin | exact Hw
                                | reflexivity | exact Hd' |].
      unfold kept_dir, ignored in *. cbn [fst snd]. rewrite Hi. now rewrite andb_false_r.
  - intros fuel l Ht more p m Hm Hp.
    apply traverse_sound in Ht. subst l.
    apply selection_selected in Hp. destruct Hp as [cs Hs].
    destruct (selected_located self _ _ _ _ Hs) as [_ [c Hc]].
    destruct (located_valid _ _ _ _ _ Hm Hw) as [V _].
    destruct (located_valid _ _ _ _ _ Hc Hw) as [V' _].
    pose proof (located_path _ _ _ _ _ Hm) as E.
    rewrite (located_path _ _ _ _ _ Hc) in E.
    apply path_of_inj in E; trivial. subst cs.
    destruct more as [|x more].
    + assert (Hd : located cur n (pcs ++ [e]) (os_path_join pp e) (Dir kd bd des)).
      { eapply located_app; [exact Hl|]. econstructor; [exact Hin | constructor]. }
      pose proof (located_unique _ _ _ _ _ _ _ Hw Hd Hc) as H. discriminate H.
    + destruct (selected_visits self _ _ _ _ Hs pcs e (x :: more) eq_refl)
        as (p' & m' & Hv); [discriminate|].
      exact (Hnv [] p' m' Hv).
Qed.


(** The file [a/f.txt] is not ignored itself, yet absent: [a] is ignored.
    The calls of the run are on the root alone, and the run gives the same
    result when [a] cannot be listed.  In the project with the ignored
    [cache] next to [src], the calls are on the root and on [src]. *)
Lemma C3_witness :
  well_formed prune_fs = true
  /\ GitIgnorer_ignore (ignorer prune_selector) "/./a/" = Ok true
  /\ GitIgnorer_ignore (ignorer prune_selector) "/a/f.txt" = Ok false
  /\ traverse 3 prune_selector "/proj" prune_fs = Ok ["/proj/b.txt"]
  /\ traverse_logged 3 prune_selector "/proj" prune_fs = (["/proj"], Ok ["/proj/b.txt"])
  /\ replace_at prune_fs ["a"] (Dir Plain false [("g.txt", File Unreadable)])
     = Dir Plain true [("a", Dir Plain false [("g.txt", File Unreadable)]);
                       ("b.txt", File (Text []))]
  /\ traverse 3 prune_selector "/proj"
       (Dir Plain true [("a", Dir Plain false [("g.txt", File Unreadable)]);
                        ("b.txt", File (Text []))])
     = Ok ["/proj/b.txt"]
  /\ ~ In "/proj/a/f.txt" ["/proj/b.txt"]
  /\ traverse_logged 3 cache_selector "/proj" mixed_fs
     = (["/proj"; "/proj/src"], Ok ["/proj/a.txt"; "/proj/src/main.py"])
  /\ (forall c, In c ["/proj"; "/proj/src"] -> c <> "/proj/cache").
Proof.
  destruct (C3_ignored_directory_is_pruned mini_gitignore cache_selector "/proj" mixed_fs
              [] "/proj" Plain true
              [("a.txt", File (Text []));
               ("cache", Dir Plain false []);
               ("src", Dir Plain true [("main.py", File (Text []))])]
              "cache" Plain false []
              eq_refl (located_here "/proj" mixed_fs) (or_intror (or_introl eq_refl)) eq_refl)
    as (_ & _ & Hcalls & _).
  destruct (C3_ignored_directory_is_pruned mini_gitignore prune_selector "/proj" prune_fs
              [] "/proj" Plain true
              [("a", Dir Plain true [("f.txt", File (Text []))]); ("b.txt", File (Text []))]
              "a" Plain true [("f.txt", File (Text []))]
              eq_refl (located_here "/proj" prune_fs) (or_introl eq_refl) eq_refl)
    as (_ & _ & _ & _ & Hrep & H).
  do 6 (split; [reflexivity|]).
  split.
  - destruct (Hrep (Dir Plain false [("g.txt", File Unreadable)]) eq_refl) as [_ Hsame].
    exact (Hsame 3).
  - split; [|split; [reflexivity|]].
    + apply (H 3 ["/proj/b.txt"] eq_refl ["f.txt"] "/proj/a/f.txt" (File (Text []))).
      econstructor; [left; reflexivity|]. econstructor; [left; reflexivity|]. constructor.
    + intros c Hc.
      apply (Hcalls 3 c [] "/proj/cache" (Dir Plain false []) Hc).
      econstructor; [right; left; reflexivity | constructor].
Defined.

(** ** A tree without ignore rules *)

Lemma flat_map_ext_in {A B : Type} (f g : A -> list B) (l : list A) :
  (forall x, In x l -> f x = g x) -> flat_map f l = flat_map g l.
Proof.
  induction l as [|x l IH]; intros H; simpl; [reflexivity|].
  rewrite (H x (or_introl eq_refl)), IH by (intros y Hy; apply H; now right).
  reflexivity.
Qed.

Lemma os_walk_no_gitignore (n : node) :
  no_gitignore n = true ->
  forall top it, In it (os_walk top n) ->
    existsb (String.eqb ".gitignore") (w_files it) = false.
Proof.
  induction n as [c|k b entries IH] using node_induction; intros Hn top it Hin;
    [destruct Hin|].
  destruct b; [|destruct Hin]. simpl in Hn. rewrite forallb_forall in Hn.
  simpl in Hin. destruct (top =? ""); [destruct Hin|]. destruct Hin as [<-|Hin].
  - cbn [w_files]. apply not_true_is_false. intros H.
    apply gitignore_listed in H. destruct H as [c Hc].
    specialize (Hn _ Hc). cbn [fst snd isdir] in Hn.
    rewrite String.eqb_refl in Hn. discriminate Hn.
  - apply in_flat_map in Hin. destruct Hin as [[e child] [Hen Hin]].
    rewrite Forall_forall in IH. cbn [fst snd] in Hin.
    destruct child as [c|[|] b' es']; [destruct Hin| |destruct Hin].
    apply (IH _ Hen) in Hin; trivial.
    specialize (Hn _ Hen). apply andb_true_iff in Hn. now destruct Hn.
Qed.

Lemma all_files_complete (cur : string) (n : node) (cs : list string) (p : string) (m : node) :
  located cur n cs p m ->
  forall c, m = File c -> cs <> [] -> In p (all_files cur n).
Proof.
  induction 1 as [cur n | cur k b entries e child cs p m Hin Hl IH]; intros c -> Hne;
    [now elim Hne|].
  simpl. apply in_or_app. destruct cs as [|x cs].
  - inversion Hl; subst. left. apply in_map_iff. exists (e, File c).
    split; [reflexivity|]. apply filter_In. now split.
  - right. apply in_flat_map. exists (e, child). split; [exact Hin|].
    cbn [fst snd]. destruct child as [c'|k' b' es']; [inversion Hl|].
    apply (IH c eq_refl). discriminate.
Qed.

Section NoRules.

Context {lib : Pathspec}.

Lemma collect_loop_none (top : string) (items : list walk_item) :
  (forall it, In it items -> existsb (String.eqb ".gitignore") (w_files it) = false) ->
  forall acc, collect_loop top items acc = Ok acc.
Proof.
  induction items as [|it items IH]; intros H acc; [reflexivity|].
  rewrite collect_loop_cons, (H it (or_introl eq_refl)).
  apply IH. intros it' Hin. apply H. now right.
Qed.

Lemma selection_all_files (self : FileSelector) (n : node) :
  (forall q, ignored self q = false) ->
  forall cur, cur <> "" -> selection self cur n = all_files cur n.
Proof.
  intros Hi. induction n as [c|k b entries IH] using node_induction; intros cur Hc;
    [reflexivity|].
  simpl. f_equal.
  - f_equal. apply filter_ext. intros en. unfold kept_file.
    now rewrite (truthy_join cur (fst en) Hc), Hi, andb_true_r.
  - apply flat_map_ext_in. intros en Hen. unfold kept_dir.
    rewrite (truthy_join cur (fst en) Hc), Hi, andb_true_r, andb_true_l.
    destruct (isdir (snd en)); [|reflexivity].
    rewrite Forall_forall in IH. apply (IH _ Hen). now apply join_nonempty.
Qed.

End NoRules.

(** C8 as amended.  When a traversal of a well-formed tree returns, its
    result has no duplicates; the path of a non-directory entry whose query
    is not ignored, and which lies in a directory reached from the start
    through directories whose queries are not ignored, occurs in it exactly
    once; and every path of the result is such an entry.  In particular,
    for a tree without [.gitignore] files whose directories can all be
    listed, with no configured patterns and a matcher that matches nothing
    on the empty pattern set, [get_all] returns every non-directory entry
    of the tree, each once when the tree is well-formed. *)
Theorem C8_kept_files_exactly_once :
  forall (lib : Pathspec),
    (forall (self : FileSelector) (fuel : nat) (cur : string) (n : node) (l : list string),
        well_formed n = true ->
        traverse fuel self cur n = Ok l ->
        NoDup l
        /\ (forall pcs pp k b listing e c,
              visits self cur n pcs pp (Dir k b listing) ->
              In (e, File c) listing ->
              GitIgnorer_ignore (ignorer self)
                (file_query (os_path_relpath pp (project_root (config_manager self))) e)
              = Ok false ->
              count_occ string_dec l (os_path_join pp e) = 1)
        /\ (forall p, In p l -> exists cs, selected self cur n cs p))
    /\ (forall (cm : ConfigManager) (fs : node) (empty : GitIgnoreSpec),
          from_lines [] = Some empty ->
          (forall p, match_file empty p = false) ->
          gitignores cm = [] ->
          no_gitignore fs = true ->
          all_listable fs = true ->
          isdir fs = true ->
          project_root_path cm <> "" ->
          exists self,
            FileSelector_create cm fs None = Ok self
            /\ get_all self fs = Ok (all_files (project_root_path cm) fs)
            /\ (forall cs p c, cs <> [] ->
                  located (project_root_path cm) fs cs p (File c) ->
                  In p (all_files (project_root_path cm) fs))
            /\ (well_formed fs = true -> NoDup (all_files (project_root_path cm) fs))).
Proof.
  intros lib. split.
  - intros self fuel cur n l Hw Ht.
    pose proof (traverse_sound self fuel cur n l Ht) as El.
    assert (Hnd : NoDup l) by (subst l; now apply selection_NoDup).
    split; [exact Hnd | split].
    + intros pcs pp k b listing e c Hv Hin Hi.
      destruct (traverse_ok_visits self _ _ _ _ _ Hv _ _ Ht) as [Hpp _].
      assert (Hk : kept_file self pp (e, File c) = true)
        by (apply kept_file_iff; [exact Hpp | now split]).
      apply NoDup_count_occ'; [exact Hnd|]. subst l.
      apply selection_selected. exists (pcs ++ [e])%list.
      eapply visits_selected; [exact Hv | reflexivity | exact Hin | exact Hk].
    + intros p Hp. subst l. now apply selection_selected.
  - intros cm fs empty Hempty Hnone Hg Hng Hal Hd Hroot.
    set (self := {| config_manager := cm;
                    ignorer := {| ignorer_data := [("/", {| pathspec := empty |})] |} |}).
    assert (Hi : forall q, ignored self q = false).
    { intros q. unfold ignored, self, scope_hit. simpl. now rewrite Hnone, andb_false_r. }
    assert (Hs : selection self (project_root_path cm) fs = all_files (project_root_path cm) fs)
      by now apply selection_all_files.
    exists self. split; [|split; [|split]].
    + unfold FileSelector_create, from_git_root, PathspecIgnorer_create, _collect_gitignores.
      rewrite Hg. simpl or_empty. rewrite Hempty. simpl.
      rewrite collect_loop_none by (intros it; apply os_walk_no_gitignore; exact Hng).
      reflexivity.
    + unfold get_all. cbn [config_manager self]. rewrite <- Hs.
      apply traverse_all_listable; trivial. lia.
    + intros cs p c Hne Hl. eapply all_files_complete; [exact Hl | reflexivity | exact Hne].
    + intros Hw. rewrite <- Hs. now apply selection_NoDup.
Qed.

(** C8 as stated fails: in a well-formed tree, a file whose own query is
    not ignored is absent from the result when it lies in an ignored
    directory. *)
Lemma C8_counterexample :
  ~ (forall (lib : Pathspec) (self : FileSelector) (fuel : nat) (cur : string) (n : node)
            (l : list string) (pcs : list string) (pp : string) (k : dirkind) (b : bool)
            (listing : list (string * node)) (e : string) (c : content),
        well_formed n = true ->
        traverse fuel self cur n = Ok l ->
        located cur n pcs pp (Dir k b listing) ->
        In (e, File c) listing ->
        GitIgnorer_ignore (ignorer self)
          (file_query (os_path_relpath pp (project_root (config_manager self))) e)
        = Ok false ->
        count_occ string_dec l (os_path_join pp e) = 1).
Proof.
  intros H.
  specialize (H mini_gitignore prune_selector 3 "/proj" prune_fs ["/proj/b.txt"]
                ["a"] "/proj/a" Plain true [("f.txt", File (Text []))] "f.txt" (Text [])
                eq_refl eq_refl).
  assert (Hl : located "/proj" prune_fs ["a"] "/proj/a"
                       (Dir Plain true [("f.txt", File (Text []))])).
  { econstructor; [left; reflexivity | constructor]. }
  specialize (H Hl (or_introl eq_refl) eq_refl).
  vm_compute in H. discriminate H.
Qed.

(** The kept file [b.txt] occurs once; a project without rules yields all
    its files. *)
Lemma C8_witness :
  well_formed plain_fs = true
  /\ traverse 3 prune_selector "/proj" prune_fs = Ok ["/proj/b.txt"]
  /\ count_occ string_dec ["/proj/b.txt"] "/proj/b.txt" = 1
  /\ (exists self,
        FileSelector_create (lib := mini_gitignore) plain_cm plain_fs None = Ok self
        /\ get_all self plain_fs = Ok ["/proj/a.txt"; "/proj/src/main.py"])
  /\ NoDup ["/proj/a.txt"; "/proj/src/main.py"].
Proof.
  destruct (C8_kept_files_exactly_once mini_gitignore) as [H1 H2].
  destruct (H1 prune_selector 3 "/proj" prune_fs ["/proj/b.txt"] eq_refl eq_refl)
    as (_ & Hcount & _).
  destruct (H2 plain_cm plain_fs [] eq_refl (fun p => eq_refl) eq_refl eq_refl eq_refl eq_refl)
    as (self & Hc & Hg & _ & Hnd); [discriminate|].
  split; [reflexivity | split; [reflexivity | split; [|split]]].
  - apply (Hcount [] "/proj" Plain true
             [("a", Dir Plain true [("f.txt", File (Text []))]); ("b.txt", File (Text []))]
             "b.txt" (Text [])); [apply visits_here | right; left; reflexivity | reflexivity].
  - exists self. split; [exact Hc | exact Hg].
  - exact (Hnd eq_refl).
Defined.

(** ** Errors and persistence: claim C9 *)


Lemma read_lines_cases (here : list (string * node)) (name : string) :
  (exists lines, read_lines here name = Ok lines)
  \/ read_lines here name = Raise OSError
  \/ read_lines here name = Raise UnicodeDecodeError.
Proof.
  induction here as [|[e n] here IH]; simpl; [right; now left|].
  destruct (e =? name); [|exact IH].
  destruct n as [[lines| |]|k b es];
    [left; now exists lines | right; now left | right; now right | right; now left].
Qed.


Lemma dir_at_os_walk (top : string) (n : node) (root : string) (listing : list (string * node)) :
  dir_at top n root listing -> top <> "" ->
  exists it, In it (os_walk top n) /\ w_root it = root /\ w_here it = listing.
Proof.
  induction 1 as [top k listing | top k listing e child root l Hin Hlink _ IH]; intros Ht;
    simpl; rewrite (proj2 (String.eqb_neq top "") Ht).
  - eexists. split; [left; reflexivity | now split].
  - destruct (IH (join_nonempty top e Ht)) as (it & Hit & Hr & Hh).
    exists it. split; [|now split].
    right. apply in_flat_map. exists (e, child). split; [exact Hin|].
    cbn [fst snd]. destruct child as [c|[|] b es];
      [destruct Hit | exact Hit | discriminate Hlink].
Qed.

Section Errors.

Context {lib : Pathspec}.

(** The loop of [_collect_gitignores] raises what the first failing read
    raises. *)
Lemma collect_loop_first_failure (top : string) (pre : list walk_item) (it : walk_item)
    (post : list walk_item) (e : exn) :
  (forall it', In it' pre -> has_gitignore it' = true ->
               exists lines, read_lines (w_here it') ".gitignore" = Ok lines) ->
  has_gitignore it = true ->
  read_lines (w_here it) ".gitignore" = Raise e ->
  forall acc, collect_loop top (pre ++ it :: post) acc = Raise e.
Proof.
  intros Hpre Hg Hr. induction pre as [|it0 pre IH]; intros acc; simpl app;
    rewrite collect_loop_cons.
  - fold (has_gitignore it). now rewrite Hg, Hr.
  - fold (has_gitignore it0). destruct (has_gitignore it0) eqn:Hg0.
    + destruct (Hpre it0 (or_introl eq_refl) Hg0) as [lines Hl]. rewrite Hl. simpl.
      apply IH. intros it' Hin. apply Hpre. now right.
    + apply IH. intros it' Hin. apply Hpre. now right.
Qed.


(** What the loop raises was raised by the read of a [.gitignore]. *)
Lemma collect_loop_raise_inv (top : string) (items : list walk_item) :
  forall acc e,
    collect_loop top items acc = Raise e ->
    exists it, In it items
               /\ has_gitignore it = true
               /\ read_lines (w_here it) ".gitignore" = Raise e.
Proof.
  induction items as [|it items IH]; intros acc e H; [discriminate H|].
  rewrite collect_loop_cons in H. fold (has_gitignore it) in H.
  destruct (has_gitignore it) eqn:Hg.
  - destruct (read_lines (w_here it) ".gitignore") as [lines|e'|] eqn:Hr; simpl in H.
    + destruct (IH _ _ H) as (it' & Hin & H'). exists it'. split; [now right | exact H'].
    + injection H as <-. exists it. split; [now left | now split].
    + discriminate H.
  - destruct (IH _ _ H) as (it' & Hin & H'). exists it'. split; [now right | exact H'].
Qed.

Lemma create_cases (patterns : list string) :
  (exists ig, PathspecIgnorer_create patterns = Ok ig)
  \/ PathspecIgnorer_create patterns = Raise PatternError.
Proof.
  unfold PathspecIgnorer_create. destruct (from_lines patterns); [left; eexists|right];
    reflexivity.
Qed.

Lemma collect_loop_cases (top : string) (items : list walk_item) :
  forall acc,
    (exists r, collect_loop top items acc = Ok r)
    \/ collect_loop top items acc = Raise OSError
    \/ collect_loop top items acc = Raise UnicodeDecodeError.
Proof.
  induction items as [|it items IH]; intros acc; [left; eexists; reflexivity|].
  rewrite collect_loop_cons.
  destruct (existsb (String.eqb ".gitignore") (w_files it)); [|apply IH].
  destruct (read_lines_cases (w_here it) ".gitignore") as [[lines Hl] | [Hl | Hl]];
    rewrite Hl; simpl; [apply IH | right; now left | right; now right].
Qed.

Lemma append_scopes_cases (gitignores : list (string * list string)) :
  forall acc,
    (exists r, append_scopes acc gitignores = Ok r)
    \/ append_scopes acc gitignores = Raise PatternError.
Proof.
  induction gitignores as [|[rp pats] gs IH]; intros acc; [left; eexists; reflexivity|].
  simpl. destruct (create_cases pats) as [[ig Hc] | Hc]; rewrite Hc; simpl;
    [apply IH | now right].
Qed.

(** The registry build returns or raises one of three errors. *)
Lemma from_git_root_cases (root_dir : string) (fs : node) (xtra : option (list string)) :
  (exists reg, from_git_root root_dir fs xtra = Ok reg)
  \/ from_git_root root_dir fs xtra = Raise PatternError
  \/ from_git_root root_dir fs xtra = Raise OSError
  \/ from_git_root root_dir fs xtra = Raise UnicodeDecodeError.
Proof.
  unfold from_git_root, _collect_gitignores.
  destruct (create_cases (or_empty xtra)) as [[root_ig Hc] | Hc]; rewrite Hc; simpl;
    [|right; now left].
  destruct (collect_loop_cases root_dir (os_walk root_dir fs) []) as [[gs Hg] | [Hg | Hg]];
    rewrite Hg; simpl; [|right; right; now left | right; right; now right].
  destruct (append_scopes_cases gs [("/", root_ig)]) as [[rest Ha] | Ha];
    rewrite Ha; simpl; [left; eexists; reflexivity | right; now left].
Qed.

(** An error of the build other than the pattern error is the error of the
    read of a [.gitignore] that the pre-walk found. *)
Lemma from_git_root_raise_inv (root_dir : string) (fs : node) (xtra : option (list string))
    (e : exn) :
  from_git_root root_dir fs xtra = Raise e -> e <> PatternError ->
  exists it, In it (os_walk root_dir fs)
             /\ has_gitignore it = true
             /\ read_lines (w_here it) ".gitignore" = Raise e.
Proof.
  unfold from_git_root, _collect_gitignores.
  destruct (create_cases (or_empty xtra)) as [[root_ig Hc] | Hc]; rewrite Hc; simpl;
    [|intros H; injection H as <-; intros Hne; now elim Hne].
  destruct (collect_loop root_dir (os_walk root_dir fs) []) as [gs|e'|] eqn:Hg; simpl;
    [| |discriminate].
  - destruct (append_scopes_cases gs [("/", root_ig)]) as [[rest Ha] | Ha];
      rewrite Ha; simpl; [discriminate|].
    intros H; injection H as <-; intros Hne; now elim Hne.
  - intros H _. injection H as <-. exact (collect_loop_raise_inv _ _ _ _ Hg).
Qed.


Lemma get_all_outcome (self : FileSelector) (fs : node) :
  get_all self fs = Ok (selection self (project_root_path (config_manager self)) fs)
  \/ get_all self fs = Raise OSError.
Proof. unfold get_all. apply traverse_outcome. lia. Qed.

End Errors.




(** ** The build, scope by scope *)

Lemma Forall2_compose {A B C : Type} (R : A -> B -> Prop) (S : B -> C -> Prop)
    (la : list A) (lc : list C) :
  (exists lb, Forall2 R la lb /\ Forall2 S lb lc)
  <-> Forall2 (fun a c => exists b, R a b /\ S b c) la lc.
Proof.
  split.
  - intros (lb & H1 & H2). revert lc H2.
    induction H1 as [|a b la lb Hab _ IH]; intros lc H2; inversion H2; subst; constructor.
    + now exists b.
    + now apply IH.
  - induction 1 as [|a c la lc (b & Hab & Hbc) _ (lb & H1 & H2)].
    + exists []. split; constructor.
    + exists (b :: lb). split; now constructor.
Qed.

Lemma Forall2_in_left {A B : Type} (R : A -> B -> Prop) (la : list A) (lb : list B) (a : A) :
  Forall2 R la lb -> In a la -> exists b, In b lb /\ R a b.
Proof.
  induction 1 as [|x y la lb Hxy _ IH]; intros Hin; [destruct Hin|].
  destruct Hin as [<-|Hin].
  - exists y. split; [now left | exact Hxy].
  - destruct (IH Hin) as (b & Hb & Hab). exists b. split; [now right | exact Hab].
Qed.

Section Exact.

Context {lib : Pathspec}.

Lemma collect_loop_shift (top : string) (items : list walk_item) :
  forall acc,
    collect_loop top items acc
    = (r <- collect_loop top items [] ;; Ok (acc ++ r)%list).
Proof.
  induction items as [|it items IH]; intros acc.
  - simpl. now rewrite app_nil_r.
  - rewrite !collect_loop_cons.
    destruct (existsb (String.eqb ".gitignore") (w_files it)); [|apply IH].
    destruct (read_lines (w_here it) ".gitignore") as [lines| |]; simpl; try reflexivity.
    rewrite (IH (acc ++ _)%list), (IH [_]).
    destruct (collect_loop top items []); simpl; try reflexivity.
    now rewrite <- app_assoc.
Qed.

Lemma collect_loop_exact (top : string) (items : list walk_item) :
  forall gs,
    collect_loop top items [] = Ok gs
    <-> Forall2 (recorded top) (filter has_gitignore items) gs.
Proof.
  induction items as [|it items IH]; intros gs.
  - simpl. split.
    + intros H. injection H as <-. constructor.
    + intros H. now inversion H.
  - rewrite collect_loop_cons. cbn [filter]. unfold has_gitignore at 1.
    destruct (existsb (String.eqb ".gitignore") (w_files it)) eqn:Hg; [|apply IH].
    split.
    + destruct (read_lines (w_here it) ".gitignore") as [lines| |] eqn:Hr; simpl;
        try discriminate.
      rewrite collect_loop_shift.
      destruct (collect_loop top items []) as [r| |] eqn:Hc; simpl; try discriminate.
      intros H. injection H as <-. simpl. constructor; [now repeat split | now apply IH].
    + intros H. inversion H as [|? g ? gs' (_ & Hr & Hp) Hrest]; subst.
      rewrite Hr. simpl. rewrite collect_loop_shift.
      apply IH in Hrest. rewrite Hrest. simpl. destruct g as [p lines]. simpl in *.
      now subst p.
Qed.

Lemma append_scopes_shift (gitignores : list (string * list string)) :
  forall acc,
    append_scopes acc gitignores
    = (r <- append_scopes [] gitignores ;; Ok (acc ++ r)%list).
Proof.
  induction gitignores as [|[rp pats] gs IH]; intros acc.
  - simpl. now rewrite app_nil_r.
  - simpl. destruct (PathspecIgnorer_create pats) as [ig| |]; simpl; try reflexivity.
    rewrite (IH (acc ++ _)%list), (IH [_]).
    destruct (append_scopes [] gs); simpl; try reflexivity.
    now rewrite <- app_assoc.
Qed.

Lemma append_scopes_exact (gitignores : list (string * list string)) :
  forall rest,
    append_scopes [] gitignores = Ok rest
    <-> Forall2 (fun g sc => fst sc = fst g /\ PathspecIgnorer_create (snd g) = Ok (snd sc))
                gitignores rest.
Proof.
  induction gitignores as [|[rp pats] gs IH]; intros rest.
  - simpl. split.
    + intros H. injection H as <-. constructor.
    + intros H. now inversion H.
  - simpl. split.
    + destruct (PathspecIgnorer_create pats) as [ig| |] eqn:Hc; simpl; try discriminate.
      rewrite append_scopes_shift.
      destruct (append_scopes [] gs) as [r| |] eqn:Ha; simpl; try discriminate.
      intros H. injection H as <-. simpl. constructor; [now split | now apply IH].
    + intros H. inversion H as [|? sc ? rest' [Hp Hc] Hrest]; subst. simpl in Hp, Hc.
      rewrite Hc. simpl. rewrite append_scopes_shift.
      apply IH in Hrest. rewrite Hrest. simpl. destruct sc as [p ig]. simpl in *.
      now subst p.
Qed.

Lemma append_scopes_fails (gitignores : list (string * list string)) (g : string * list string) :
  In g gitignores -> from_lines (snd g) = None ->
  forall acc, append_scopes acc gitignores = Raise PatternError.
Proof.
  intros Hin Hg. induction gitignores as [|[rp pats] gs IH]; intros acc; [destruct Hin|].
  simpl. unfold PathspecIgnorer_create at 1.
  destruct (from_lines pats) as [p|] eqn:Hp; simpl; [|reflexivity].
  destruct Hin as [<-|Hin]; [simpl in Hg; congruence | now apply IH].
Qed.

Lemma collect_loop_total (top : string) (items : list walk_item) :
  (forall it, In it items -> has_gitignore it = true ->
              exists lines, read_lines (w_here it) ".gitignore" = Ok lines) ->
  exists gs, collect_loop top items [] = Ok gs.
Proof.
  induction items as [|it items IH]; intros H; [now exists []|].
  destruct IH as [gs Hgs]; [intros it' Hin; apply H; now right|].
  rewrite collect_loop_cons. fold (has_gitignore it).
  destruct (has_gitignore it) eqn:Hg; [|now exists gs].
  destruct (H it (or_introl eq_refl) Hg) as [lines Hr]. rewrite Hr. simpl.
  rewrite collect_loop_shift, Hgs. simpl. eexists. reflexivity.
Qed.

(** A registry is returned exactly when the extra patterns compile and the
    loops over the walked directories that hold a [.gitignore] succeed. *)
Lemma from_git_root_exact (root_dir : string) (fs : node) (xtra : option (list string))
    (data : list (string * PathspecIgnorer)) :
  from_git_root root_dir fs xtra = Ok {| ignorer_data := data |}
  <-> exists root_ig rest,
        data = ("/", root_ig) :: rest
        /\ PathspecIgnorer_create (or_empty xtra) = Ok root_ig
        /\ Forall2 (fun it sc =>
                      exists g, recorded root_dir it g
                                /\ fst sc = fst g
                                /\ PathspecIgnorer_create (snd g) = Ok (snd sc))
                   (filter has_gitignore (os_walk root_dir fs)) rest.
Proof.
  unfold from_git_root, _collect_gitignores. split.
  - destruct (PathspecIgnorer_create (or_empty xtra)) as [root_ig| |] eqn:Hroot;
      simpl; try discriminate.
    destruct (collect_loop root_dir (os_walk root_dir fs) []) as [gs| |] eqn:Hc;
      simpl; try discriminate.
    rewrite append_scopes_shift.
    destruct (append_scopes [] gs) as [rest| |] eqn:Ha; simpl; try discriminate.
    intros H. injection H as <-. exists root_ig, rest.
    split; [reflexivity | split; [reflexivity|]].
    apply Forall2_compose. exists gs. split; [now apply collect_loop_exact|].
    now apply append_scopes_exact.
  - intros (root_ig & rest & -> & Hroot & H).
    apply Forall2_compose in H. destruct H as (gs & H1 & H2).
    apply collect_loop_exact in H1. apply append_scopes_exact in H2.
    rewrite Hroot. simpl. rewrite H1. simpl. rewrite append_scopes_shift, H2. reflexivity.
Qed.

End Exact.

(** ** Scopes and sibling directories: claim C10 *)

Section Siblings.

Context {lib : Pathspec}.

(** The loop of [GitIgnorer.ignore] reaches a scope that applies when no
    scope before it answers true. *)
Lemma ignore_calls_reached (pre post : list (string * PathspecIgnorer)) (d : string)
    (ig : PathspecIgnorer) (path : string) :
  existsb (scope_hit path) pre = false ->
  startswith path d = true ->
  In (d, ig, path) (ignore_calls (pre ++ (d, ig) :: post) path).
Proof.
  induction pre as [|[p i] pre IH]; intros Hn Hp; cbn [app ignore_calls].
  - rewrite Hp. now left.
  - cbn [existsb] in Hn. apply orb_false_iff in Hn. destruct Hn as [Hh Hn].
    unfold scope_hit in Hh. cbn [fst snd] in Hh.
    destruct (startswith path p); cbn [andb] in Hh.
    + rewrite Hh. right. now apply IH.
    + now apply IH.
Qed.

(** A registry that the build returns holds, for every directory that the
    pre-walk reaches and that holds a [.gitignore], a scope with the prefix
    of the directory and the matcher of the lines of the file. *)
Lemma built_scope (top : string) (fs : node) (xtra : option (list string))
    (reg : GitIgnorer) (root : string) (listing : list (string * node)) :
  top <> "" ->
  from_git_root top fs xtra = Ok reg ->
  dir_at top fs root listing ->
  (exists c, In (".gitignore", File c) listing) ->
  exists lines ig pre post,
    read_lines listing ".gitignore" = Ok lines
    /\ PathspecIgnorer_create lines = Ok ig
    /\ ignorer_data reg = (pre ++ (scope_prefix root top, ig) :: post)%list.
Proof.
  intros Htop Hb Hat Hg. destruct reg as [data].
  apply from_git_root_exact in Hb. destruct Hb as (root_ig & rest & -> & _ & Hall).
  destruct (dir_at_os_walk _ _ _ _ Hat Htop) as (it & Hit & Hr & Hh).
  destruct (os_walk_dir_at _ _ _ Hit) as (_ & Hf & _).
  assert (Hin : In it (filter has_gitignore (os_walk top fs))).
  { apply filter_In. split; [exact Hit|].
    unfold has_gitignore. rewrite Hf, Hh. now apply gitignore_listed. }
  destruct (Forall2_in_left _ _ _ it Hall Hin) as ([p ig] & Hsc & g & (_ & Hread & Hp) & Hfst & Hc).
  cbn [fst snd] in Hfst, Hc.
  apply in_split in Hsc. destruct Hsc as (l1 & l2 & ->).
  exists (snd g), ig, (("/", root_ig) :: l1)%list, l2.
  rewrite <- Hh. split; [exact Hread | split; [exact Hc|]].
  cbn [ignorer_data app]. now rewrite Hfst, Hp, Hr.
Qed.

End Siblings.

(** C10.  The prefix that the registry build gives to the scope of a
    directory below the root is [/] followed by its relative path, without
    a trailing separator, and the built registry holds a scope with that
    prefix and the matcher of the lines of the directory's [.gitignore].
    In any registry, a scope whose prefix is [d] applies to every query
    path that extends [d] by a non-empty piece not starting with a
    separator, such as [/subdir/file] for the scope of [/sub]: the path
    lies outside the subtree of [d], yet it passes the prefix test; the
    registry answers true exactly when the patterns of this scope or of
    another scope that applies match the path; the matcher of the scope is
    asked whenever no earlier scope has answered true; and when no other
    scope matches, the patterns of the scope of [d] alone decide the
    answer, which without that scope is false. *)
Theorem C10_scope_applies_to_sibling :
  forall (lib : Pathspec),
    (forall (top : string) (cs : list string),
        Forall (fun e => valid_name e = true) cs -> cs <> [] ->
        scope_prefix (path_of top cs) top = "/" ++ String.concat "/" cs
        /\ endswith_sep (scope_prefix (path_of top cs) top) = false)
    /\ (forall (top : string) (fs : node) (xtra : option (list string)) (reg : GitIgnorer)
               (root : string) (listing : list (string * node)),
          top <> "" ->
          from_git_root top fs xtra = Ok reg ->
          dir_at top fs root listing ->
          (exists c, In (".gitignore", File c) listing) ->
          exists lines ig pre post,
            read_lines listing ".gitignore" = Ok lines
            /\ PathspecIgnorer_create lines = Ok ig
            /\ ignorer_data reg = (pre ++ (scope_prefix root top, ig) :: post)%list)
    /\ (forall (self : GitIgnorer) (pre post : list (string * PathspecIgnorer))
               (d : string) (ig : PathspecIgnorer) (ext rest : string),
          ignorer_data self = (pre ++ (d, ig) :: post)%list ->
          ext <> "" -> startswith ext "/" = false ->
          let path := d ++ ext ++ "/" ++ rest in
          startswith path (d ++ "/") = false
          /\ startswith path d = true
          /\ GitIgnorer_ignore self path
             = Ok (existsb (scope_hit path) pre
                   || match_file (pathspec ig) path
                   || existsb (scope_hit path) post)
          /\ (match_file (pathspec ig) path = true -> GitIgnorer_ignore self path = Ok true)
          /\ (existsb (scope_hit path) pre = false ->
              In (d, ig, path) (ignore_calls (ignorer_data self) path))
          /\ (existsb (scope_hit path) (pre ++ post) = false ->
              GitIgnorer_ignore self path = Ok (match_file (pathspec ig) path)
              /\ GitIgnorer_ignore {| ignorer_data := (pre ++ post)%list |} path = Ok false)).
Proof.
  intros lib. split; [intros top cs Hv Hne; now apply scope_prefix_below|].
  split; [intros top fs xtra reg root listing; apply built_scope|].
  intros self pre post d ig ext rest Hdata Hne Hns path.
  assert (Hr : is_root_query path = false).
  { apply is_root_query_long. unfold path. rewrite !length_append.
    destruct ext; [now elim Hne | simpl; lia]. }
  assert (Hp : startswith path d = true) by apply startswith_append.
  assert (Hans : GitIgnorer_ignore self path
                 = Ok (existsb (scope_hit path) pre
                       || match_file (pathspec ig) path
                       || existsb (scope_hit path) post)).
  { rewrite (ignore_existsb self path Hr), Hdata, existsb_app. cbn [existsb].
    unfold scope_hit at 2. cbn [fst snd]. rewrite Hp. cbn [andb].
    now rewrite orb_assoc. }
  split; [|split; [exact Hp | split; [exact Hans | split; [|split]]]].
  - unfold path. rewrite startswith_append_cancel.
    destruct ext as [|c ext]; [now elim Hne|].
    change ((String c ext) ++ "/" ++ rest) with (String c (ext ++ "/" ++ rest)).
    rewrite startswith_cons in *.
    destruct (ascii_dec "/" c); [|reflexivity].
    rewrite startswith_empty in Hns. discriminate Hns.
  - intros Hm. rewrite Hans, Hm. now rewrite orb_true_r.
  - intros Hpre. rewrite Hdata. now apply ignore_calls_reached.
  - intros Hn. rewrite existsb_app in Hn. apply orb_false_iff in Hn.
    destruct Hn as [Hn1 Hn2]. split.
    + rewrite Hans, Hn1, Hn2. now rewrite orb_false_r.
    + rewrite (ignore_existsb _ path Hr). cbn [ignorer_data].
      now rewrite existsb_app, Hn1, Hn2.
Qed.

(** The registry built for a project with [sub/.gitignore], whose line is
    [*], has the scope [/sub] and ignores [/subdir/file] through it: the
    traversal returns nothing of [subdir].  Without that scope the answer
    is false, and with the line [*.log] in its place the scope decides
    between [/subdir/file] and [/subdir/x.log]. *)
Lemma C10_witness :
  from_git_root "/proj" sibling_fs None = Ok sibling_registry
  /\ scope_prefix (path_of "/proj" ["sub"]) "/proj" = "/sub"
  /\ ignorer_data sibling_registry
     = ([("/", {| pathspec := ([] : @GitIgnoreSpec mini_gitignore) |})]
        ++ ("/sub", {| pathspec := (["*"] : @GitIgnoreSpec mini_gitignore) |}) :: [])%list
  /\ "dir" <> "" /\ startswith "dir" "/" = false
  /\ startswith "/subdir/file" "/sub/" = false
  /\ GitIgnorer_ignore sibling_registry "/subdir/file" = Ok true
  /\ In ("/sub", {| pathspec := (["*"] : @GitIgnoreSpec mini_gitignore) |}, "/subdir/file")
        (ignore_calls (ignorer_data sibling_registry) "/subdir/file")
  /\ GitIgnorer_ignore
       {| ignorer_data := [("/", {| pathspec := ([] : @GitIgnoreSpec mini_gitignore) |})] |}
       "/subdir/file" = Ok false
  /\ GitIgnorer_ignore (lib := mini_gitignore)
       {| ignorer_data := [("/", {| pathspec := [] |}); ("/sub", {| pathspec := ["*.log"] |})] |}
       "/subdir/file" = Ok false
  /\ GitIgnorer_ignore (lib := mini_gitignore)
       {| ignorer_data := [("/", {| pathspec := [] |}); ("/sub", {| pathspec := ["*.log"] |})] |}
       "/subdir/x.log" = Ok true
  /\ get_all {| config_manager := plain_cm; ignorer := sibling_registry |} sibling_fs = Ok [].
Proof.
  assert (Hne : "dir" <> "") by discriminate.
  assert (Htop : "/proj" <> "") by discriminate.
  destruct (C10_scope_applies_to_sibling mini_gitignore) as (H1 & H2 & H3).
  destruct (H1 "/proj" ["sub"]) as [Hp _]; [now repeat constructor | discriminate|].
  destruct (H2 "/proj" sibling_fs None sibling_registry "/proj/sub"
               [(".gitignore", File (Text ["*"]))] Htop eq_refl)
    as (lines & ig & pre & post & Hread & Hig & Hdata).
  { eapply dir_below; [left; reflexivity | reflexivity | apply dir_here]. }
  { exists (Text ["*"]). now left. }
  pose proof (H3 sibling_registry
                [("/", {| pathspec := ([] : @GitIgnoreSpec mini_gitignore) |})] []
                "/sub" {| pathspec := (["*"] : @GitIgnoreSpec mini_gitignore) |} "dir" "file"
                eq_refl Hne eq_refl) as (Ha & _ & _ & Hc & Hcall & Hd).
  pose proof (H3 {| ignorer_data := [("/", {| pathspec := ([] : @GitIgnoreSpec mini_gitignore) |});
                                     ("/sub", {| pathspec := ["*.log"] |})] |}
                [("/", {| pathspec := ([] : @GitIgnoreSpec mini_gitignore) |})] []
                "/sub" {| pathspec := (["*.log"] : @GitIgnoreSpec mini_gitignore) |} "dir" "file"
                eq_refl Hne eq_refl) as (_ & _ & _ & _ & _ & He).
  pose proof (H3 {| ignorer_data := [("/", {| pathspec := ([] : @GitIgnoreSpec mini_gitignore) |});
                                     ("/sub", {| pathspec := ["*.log"] |})] |}
                [("/", {| pathspec := ([] : @GitIgnoreSpec mini_gitignore) |})] []
                "/sub" {| pathspec := (["*.log"] : @GitIgnoreSpec mini_gitignore) |} "dir" "x.log"
                eq_refl Hne eq_refl) as (_ & _ & _ & _ & _ & Hf).
  split; [reflexivity|]. split; [exact Hp|]. split; [reflexivity|]. split; [exact Hne|].
  split; [reflexivity|]. split; [exact Ha|]. split; [exact (Hc eq_refl)|].
  split; [exact (Hcall eq_refl)|].
  split; [exact (proj2 (Hd eq_refl))|].
  split; [exact (proj1 (He eq_refl))|].
  split; [exact (proj1 (Hf eq_refl)) | reflexivity].
Defined.

(** ** The query paths of the traversal: claim C5 *)

(** C5.  The queries that [traverse] forms for the entries of the project
    root itself: [os.path.relpath] of the root against itself is [.], so
    the query for an entry [e] is [/] followed by [os.path.join(".", e)],
    that is [/./e/] for a directory and [/./e] for a file, where the claim
    has [/e/] and [/e].  Below the root the queries are as the claim has
    them. *)
Theorem C5_root_level_queries_keep_dot :
  forall (lib : Pathspec) (self : FileSelector),
    let root := project_root (config_manager self) in
    (forall en,
        keep_dir self root (os_path_relpath root root) en
        = (if truthy (os_path_join root (fst en)) && isdir (snd en)
           then b <- GitIgnorer_ignore (ignorer self) ("/" ++ os_path_join "." (fst en) ++ "/") ;;
                Ok (negb b)
           else Ok false)
        /\ keep_file self root (os_path_relpath root root) en
           = (if truthy (os_path_join root (fst en)) && negb (isdir (snd en))
              then b <- GitIgnorer_ignore (ignorer self) ("/" ++ os_path_join "." (fst en)) ;;
                   Ok (negb b)
              else Ok false))
    /\ (forall r e,
          valid_name e = true ->
          dir_query (os_path_relpath r r) e = "/./" ++ e ++ "/"
          /\ claimed_dir_query r (os_path_join r e) = "/" ++ e ++ "/"
          /\ file_query (os_path_relpath r r) e = "/./" ++ e
          /\ claimed_file_query r (os_path_join r e) = "/" ++ e)
    /\ (forall r cs e,
          Forall (fun x => valid_name x = true) cs -> cs <> [] -> valid_name e = true ->
          dir_query (os_path_relpath (path_of r cs) r) e
          = claimed_dir_query r (os_path_join (path_of r cs) e)
          /\ file_query (os_path_relpath (path_of r cs) r) e
             = claimed_file_query r (os_path_join (path_of r cs) e)).
Proof.
  intros lib self root. split; [|split].
  - intros en. unfold keep_dir, keep_file, dir_query, file_query.
    rewrite relpath_self. split; reflexivity.
  - intros r e He. destruct (valid_name_inv e He) as [_ Hs].
    unfold dir_query, file_query, claimed_dir_query, claimed_file_query.
    rewrite relpath_self, (join_valid "." e Hs).
    change (os_path_join r e) with (path_of r [e]).
    rewrite (relpath_below r [e]) by (try (now repeat constructor); discriminate).
    repeat split; reflexivity.
  - intros r cs e Hv Hne He. now apply nested_queries.
Qed.

(** In the project [/proj], the queries for [build] and [a.txt] of the root
    and for [lib] of [src]. *)
Lemma C5_witness :
  valid_name "build" = true
  /\ dir_query (os_path_relpath "/proj" "/proj") "build" = "/./build/"
  /\ claimed_dir_query "/proj" (os_path_join "/proj" "build") = "/build/"
  /\ file_query (os_path_relpath "/proj" "/proj") "a.txt" = "/./a.txt"
  /\ claimed_file_query "/proj" (os_path_join "/proj" "a.txt") = "/a.txt"
  /\ dir_query (os_path_relpath "/proj/src" "/proj") "lib" = "/src/lib/"
  /\ claimed_dir_query "/proj" "/proj/src/lib" = "/src/lib/".
Proof.
  destruct (C5_root_level_queries_keep_dot mini_gitignore prune_selector) as (_ & H2 & H3).
  destruct (H2 "/proj" "build" eq_refl) as (Ha & Hb & _).
  destruct (H2 "/proj" "a.txt" eq_refl) as (_ & _ & Hc & Hd).
  destruct (H3 "/proj" ["src"] "lib") as [He _];
    [now repeat constructor | discriminate | reflexivity|].
  split; [reflexivity|].
  split; [exact Ha|]. split; [exact Hb|]. split; [exact Hc|]. split; [exact Hd|].
  split; [reflexivity | reflexivity].
Defined.

(** * Further properties of the code *)

(** ** When the traversal returns *)

(** X1.  [get_all] either returns the selection or raises [OSError]: the
    assertion of the ignore queries is never triggered by a traversal,
    whatever the tree and the registry.  It returns exactly when the path
    of the project root is not empty and every directory that the
    traversal visits can be listed. *)
Theorem X1_get_all_returns_iff_listable :
  forall (lib : Pathspec) (self : FileSelector) (fs : node),
    let root := project_root_path (config_manager self) in
    (get_all self fs = Ok (selection self root fs) \/ get_all self fs = Raise OSError)
    /\ ((exists l, get_all self fs = Ok l) <->
        root <> ""
        /\ forall cs p m, visits self root fs cs p m -> exists k entries, m = Dir k true entries).
Proof.
  intros lib self fs root. split; [apply get_all_outcome|]. split.
  - intros [l Hl]. unfold get_all in Hl. fold root in Hl. split.
    + now destruct (traverse_ok_visits self _ _ _ _ _ (visits_here self root fs) _ _ Hl).
    + intros cs p m Hv. now destruct (traverse_ok_visits self _ _ _ _ _ Hv _ _ Hl).
  - intros [Hr Hv]. exists (selection self root fs). unfold get_all. fold root.
    apply traverse_ok; trivial. lia.
Qed.

(** The project with the ignored, unlistable cache directory returns; the
    project with the unlistable [src] does not. *)
Lemma X1_witness :
  get_all (lib := mini_gitignore)
    {| config_manager := cache_cm;
       ignorer := {| ignorer_data :=
                       [("/", {| pathspec := (["*cache"] : @GitIgnoreSpec mini_gitignore) |})] |} |}
    cache_fs = Ok ["/proj/a.txt"]
  /\ "/proj" <> ""
  /\ ~ (exists l, get_all plain_selector locked_fs = Ok l).
Proof.
  split; [reflexivity | split; [discriminate|]].
  intros H.
  apply (proj2 (X1_get_all_returns_iff_listable mini_gitignore plain_selector locked_fs)) in H.
  destruct H as [_ H].
  destruct (H ["src"] "/proj/src" (Dir Plain false [])) as [k [entries E]]; [|discriminate E].
  eapply visits_below; [right; left; reflexivity | reflexivity | apply visits_here].
Defined.

(** ** The order and number of scopes do not matter *)

Lemma existsb_incl {A : Type} (f : A -> bool) (l l' : list A) :
  incl l l' -> existsb f l = true -> existsb f l' = true.
Proof.
  intros Hi H. apply existsb_exists in H. destruct H as (x & Hx & Hf).
  apply existsb_exists. exists x. split; [now apply Hi | exact Hf].
Qed.

Lemma ignore_root_query {lib : Pathspec} (self : GitIgnorer) (path : string) :
  is_root_query path = true -> GitIgnorer_ignore self path = Raise AssertionError.
Proof. intros H. unfold GitIgnorer_ignore. now rewrite H. Qed.

(** X2.  The answer of [GitIgnorer.ignore] depends on the scope entries
    only as a set: two registries with the same entries, in any order and
    with any repetitions, answer every query alike (including the
    assertion on the root path); and adding scope entries to a registry
    never turns an ignored path into one that is not ignored. *)
Theorem X2_ignore_depends_on_scope_set :
  forall (lib : Pathspec) (data data' : list (string * PathspecIgnorer)) (path : string),
    (incl data data' -> incl data' data ->
     GitIgnorer_ignore {| ignorer_data := data |} path
     = GitIgnorer_ignore {| ignorer_data := data' |} path)
    /\ (incl data data' ->
        GitIgnorer_ignore {| ignorer_data := data |} path = Ok true ->
        GitIgnorer_ignore {| ignorer_data := data' |} path = Ok true).
Proof.
  intros lib data data' path.
  destruct (is_root_query path) eqn:Hr.
  - split; intros; rewrite !ignore_root_query in * by exact Hr; [reflexivity | discriminate].
  - rewrite !ignore_existsb by exact Hr. simpl. split.
    + intros H1 H2. f_equal.
      destruct (existsb (scope_hit path) data) eqn:E.
      * symmetry. now apply (existsb_incl _ data data').
      * destruct (existsb (scope_hit path) data') eqn:E'; [|reflexivity].
        apply (existsb_incl _ data' data) in E'; [congruence | exact H2].
    + intros H1 H. injection H as H. f_equal. now apply (existsb_incl _ data data').
Qed.

(** The two scopes of the example registry, swapped. *)
Lemma X2_witness :
  GitIgnorer_ignore sibling_registry "/subdir/file"
  = GitIgnorer_ignore (lib := mini_gitignore)
      {| ignorer_data := [("/sub", {| pathspec := (["*"] : @GitIgnoreSpec mini_gitignore) |});
                          ("/", {| pathspec := ([] : @GitIgnoreSpec mini_gitignore) |})] |}
      "/subdir/file".
Proof.
  apply (proj1 (X2_ignore_depends_on_scope_set mini_gitignore
                  (ignorer_data sibling_registry)
                  [("/sub", {| pathspec := (["*"] : @GitIgnoreSpec mini_gitignore) |});
                   ("/", {| pathspec := ([] : @GitIgnoreSpec mini_gitignore) |})]
                  "/subdir/file")).
  - intros x [<-|[<-|[]]]; [right; left | left]; reflexivity.
  - intros x [<-|[<-|[]]]; [right; left | left]; reflexivity.
Defined.

(** ** The registry that the build returns *)

(** X3.  [from_git_root] returns a registry exactly when the extra root
    patterns compile and every [.gitignore] that the pre-walk finds can be
    read and compiles; the registry then holds the scope of the extra
    patterns at [/], followed by exactly one scope for each walked
    directory that holds a [.gitignore], in the order of the walk, with the
    prefix of that directory and the matcher of the lines of that file.
    The walked directories are those reached from the root through
    directories that can be listed, without following a symbolic link. *)
Theorem X3_registry_is_one_scope_per_gitignore :
  forall (lib : Pathspec) (root_dir : string) (fs : node)
         (xtra : option (list string)) (data : list (string * PathspecIgnorer)),
    (from_git_root root_dir fs xtra = Ok {| ignorer_data := data |}
     <-> exists root_ig rest,
           data = ("/", root_ig) :: rest
           /\ PathspecIgnorer_create (or_empty xtra) = Ok root_ig
           /\ Forall2 (fun it sc =>
                         exists g, recorded root_dir it g
                                   /\ fst sc = fst g
                                   /\ PathspecIgnorer_create (snd g) = Ok (snd sc))
                      (filter has_gitignore (os_walk root_dir fs)) rest)
    /\ (forall it, In it (os_walk root_dir fs) ->
          dir_at root_dir fs (w_root it) (w_here it)
          /\ w_files it = map fst (filter (fun en => negb (isdir (snd en))) (w_here it)))
    /\ (root_dir <> "" ->
        forall root listing,
          dir_at root_dir fs root listing ->
          exists it, In it (os_walk root_dir fs) /\ w_root it = root /\ w_here it = listing).
Proof.
  intros lib root_dir fs xtra data. split; [apply from_git_root_exact | split].
  - intros it Hit. destruct (os_walk_dir_at _ _ _ Hit) as (H1 & H2 & _). now split.
  - intros Hne root listing Hat. now apply dir_at_os_walk.
Qed.

(** The registry of the project with a [.gitignore] in its root and one in
    [logs]; and the registry of a project whose directories [real] and
    [link], a symbolic link, both hold a [.gitignore]: [link] gets no
    scope. *)
Lemma X3_witness :
  from_git_root (lib := mini_gitignore) "/proj" rooted_fs (Some ["*.tmp"])
  = Ok {| ignorer_data :=
            [("/", {| pathspec := (["*.tmp"] : @GitIgnoreSpec mini_gitignore) |});
             ("/", {| pathspec := (["*.log"] : @GitIgnoreSpec mini_gitignore) |});
             ("/logs", {| pathspec := (["!*.log"] : @GitIgnoreSpec mini_gitignore) |})] |}
  /\ from_git_root (lib := mini_gitignore) "/proj" symlink_fs None
     = Ok {| ignorer_data :=
               [("/", {| pathspec := ([] : @GitIgnoreSpec mini_gitignore) |});
                ("/real", {| pathspec := (["*.log"] : @GitIgnoreSpec mini_gitignore) |})] |}.
Proof.
  split.
  - apply (proj2 (proj1 (X3_registry_is_one_scope_per_gitignore mini_gitignore "/proj"
                           rooted_fs (Some ["*.tmp"]) _))).
    eexists. eexists. split; [reflexivity | split; [reflexivity|]].
    cbn. constructor; [|constructor; [|constructor]].
    + exists ("/", ["*.log"]). repeat split.
    + exists ("/logs", ["!*.log"]). repeat split.
  - apply (proj2 (proj1 (X3_registry_is_one_scope_per_gitignore mini_gitignore "/proj"
                           symlink_fs None _))).
    eexists. eexists. split; [reflexivity | split; [reflexivity|]].
    cbn. constructor; [|constructor].
    exists ("/real", ["*.log"]). repeat split.
Defined.

(** X4.  The errors of the registry build, in the order the code meets
    them: extra root patterns that do not compile raise the pattern error
    before the tree is looked at; otherwise the first [.gitignore] of the
    pre-walk whose read fails makes the build raise the error of that read,
    whether or not other files compile; otherwise, when every [.gitignore]
    found by the pre-walk can be read and one of them does not compile, the
    build raises the pattern error.  The build raises nothing but the
    pattern error, [OSError] and [UnicodeDecodeError], and the latter two
    only as the error of a failed read of a [.gitignore] that the pre-walk
    found. *)
Theorem X4_pattern_errors_abort_the_build :
  forall (lib : Pathspec) (root_dir : string) (fs : node) (xtra : option (list string)),
    (from_lines (or_empty xtra) = None ->
     from_git_root root_dir fs xtra = Raise PatternError)
    /\ (forall root_ig pre it post e,
          PathspecIgnorer_create (or_empty xtra) = Ok root_ig ->
          os_walk root_dir fs = (pre ++ it :: post)%list ->
          (forall it', In it' pre -> has_gitignore it' = true ->
                       exists l, read_lines (w_here it') ".gitignore" = Ok l) ->
          has_gitignore it = true ->
          read_lines (w_here it) ".gitignore" = Raise e ->
          from_git_root root_dir fs xtra = Raise e)
    /\ (forall root_ig it lines,
          PathspecIgnorer_create (or_empty xtra) = Ok root_ig ->
          (forall it', In it' (os_walk root_dir fs) -> has_gitignore it' = true ->
                       exists l, read_lines (w_here it') ".gitignore" = Ok l) ->
          In it (os_walk root_dir fs) ->
          has_gitignore it = true ->
          read_lines (w_here it) ".gitignore" = Ok lines ->
          from_lines lines = None ->
          from_git_root root_dir fs xtra = Raise PatternError)
    /\ ((exists reg, from_git_root root_dir fs xtra = Ok reg)
        \/ from_git_root root_dir fs xtra = Raise PatternError
        \/ from_git_root root_dir fs xtra = Raise OSError
        \/ from_git_root root_dir fs xtra = Raise UnicodeDecodeError)
    /\ (forall e,
          from_git_root root_dir fs xtra = Raise e -> e <> PatternError ->
          exists it, In it (os_walk root_dir fs)
                     /\ has_gitignore it = true
                     /\ read_lines (w_here it) ".gitignore" = Raise e).
Proof.
  intros lib root_dir fs xtra.
  split; [|split; [|split; [|split]]].
  - intros H. unfold from_git_root, PathspecIgnorer_create. now rewrite H.
  - intros root_ig pre it post e Hroot Hw Hpre Hg Hr.
    unfold from_git_root, _collect_gitignores. rewrite Hroot. simpl.
    now rewrite Hw, (collect_loop_first_failure _ pre it post e Hpre Hg Hr).
  - intros root_ig it lines Hroot Hread Hin Hg Hr Hbad.
    unfold from_git_root, _collect_gitignores. rewrite Hroot. simpl.
    destruct (collect_loop_total root_dir (os_walk root_dir fs) Hread) as [gs Hgs].
    rewrite Hgs. simpl.
    apply collect_loop_exact in Hgs.
    assert (Hit : In it (filter has_gitignore (os_walk root_dir fs)))
      by (apply filter_In; now split).
    destruct (Forall2_in_left _ _ _ it Hgs Hit) as (g & Hgin & (_ & Hr' & _)).
    rewrite (append_scopes_fails gs g Hgin); [reflexivity | congruence].
  - apply from_git_root_cases.
  - intros e. apply from_git_root_raise_inv.
Qed.

(** With a library that rejects the line [!]: the project whose
    [src/.gitignore] holds it, malformed extra patterns, and the projects
    whose [src/.gitignore] cannot be read or does not decode. *)
Lemma X4_witness :
  from_git_root (lib := strict_gitignore) "/proj" malformed_fs None = Raise PatternError
  /\ from_git_root (lib := strict_gitignore) "/proj" plain_fs (Some ["!"]) = Raise PatternError
  /\ from_git_root (lib := strict_gitignore) "/proj" unreadable_fs None = Raise OSError
  /\ from_git_root (lib := strict_gitignore) "/proj" undecodable_fs None
     = Raise UnicodeDecodeError.
Proof.
  destruct (X4_pattern_errors_abort_the_build strict_gitignore "/proj" malformed_fs None)
    as (_ & _ & H3 & _).
  destruct (X4_pattern_errors_abort_the_build strict_gitignore "/proj" plain_fs (Some ["!"]))
    as (H1 & _).
  destruct (X4_pattern_errors_abort_the_build strict_gitignore "/proj" unreadable_fs None)
    as (_ & H2 & _).
  destruct (X4_pattern_errors_abort_the_build strict_gitignore "/proj" undecodable_fs None)
    as (_ & H2' & _).
  split; [|split; [exact (H1 eq_refl) | split]].
  - apply (H3 {| pathspec := ([] : @GitIgnoreSpec strict_gitignore) |}
              (WalkItem "/proj/src" [] [".gitignore"] [(".gitignore", File (Text ["!"]))])
              ["!"]); try reflexivity.
    + intros it' [<-|[<-|[]]] Hg; [discriminate Hg | now exists ["!"]].
    + right; left; reflexivity.
  - apply (H2 {| pathspec := ([] : @GitIgnoreSpec strict_gitignore) |}
              [WalkItem "/proj" ["src"] ["a.txt"]
                        [("a.txt", File (Text []));
                         ("src", Dir Plain true [(".gitignore", File Unreadable)])]]
              (WalkItem "/proj/src" [] [".gitignore"] [(".gitignore", File Unreadable)])
              []); try reflexivity.
    intros it' [<-|[]] Hg; discriminate Hg.
  - apply (H2' {| pathspec := ([] : @GitIgnoreSpec strict_gitignore) |}
               [WalkItem "/proj" ["src"] ["a.txt"]
                         [("a.txt", File (Text []));
                          ("src", Dir Plain true [(".gitignore", File Undecodable)])]]
               (WalkItem "/proj/src" [] [".gitignore"] [(".gitignore", File Undecodable)])
               []); try reflexivity.
    intros it' [<-|[]] Hg; discriminate Hg.
Defined.

(** ** Rules only remove files *)

Lemma subseq_refl {A : Type} (l : list A) : subseq l l.
Proof. induction l; constructor; assumption. Qed.

Lemma subseq_nil_l {A : Type} (l : list A) : subseq [] l.
Proof. induction l; constructor; assumption. Qed.

Lemma subseq_app {A : Type} (l1 l1' l2 l2' : list A) :
  subseq l1 l1' -> subseq l2 l2' -> subseq (l1 ++ l2) (l1' ++ l2').
Proof.
  induction 1 as [|x l1 l1' _ IH|x l1 l1' _ IH]; intros H2; simpl;
    [exact H2 | apply subseq_skip; now apply IH | apply subseq_take; now apply IH].
Qed.

Lemma subseq_In {A : Type} (l1 l2 : list A) (x : A) : subseq l1 l2 -> In x l1 -> In x l2.
Proof.
  induction 1 as [|y l1 l2 _ IH|y l1 l2 _ IH]; intros Hin; [destruct Hin | right; auto|].
  destruct Hin as [<-|Hin]; [now left | right; auto].
Qed.

Lemma subseq_length {A : Type} (l1 l2 : list A) : subseq l1 l2 -> List.length l1 <= List.length l2.
Proof. induction 1; simpl; lia. Qed.

Lemma subseq_map_filter {A B : Type} (h : A -> B) (f g : A -> bool) (l : list A) :
  (forall x, In x l -> f x = true -> g x = true) ->
  subseq (map h (filter f l)) (map h (filter g l)).
Proof.
  induction l as [|x l IH]; intros H; simpl; [constructor|].
  assert (IH' : subseq (map h (filter f l)) (map h (filter g l)))
    by (apply IH; intros y Hy; apply H; now right).
  destruct (f x) eqn:Hf.
  - rewrite (H x (or_introl eq_refl) Hf). simpl. now apply subseq_take.
  - destruct (g x); simpl; [now apply subseq_skip | exact IH'].
Qed.

Lemma subseq_flat_map {A B : Type} (F G : A -> list B) (l : list A) :
  (forall x, In x l -> subseq (F x) (G x)) -> subseq (flat_map F l) (flat_map G l).
Proof.
  induction l as [|x l IH]; intros H; simpl; [constructor|].
  apply subseq_app; [apply H; now left | apply IH; intros y Hy; apply H; now right].
Qed.

Section Monotone.

Context {lib : Pathspec}.

Variables self self' : FileSelector.

Hypothesis same_root :
  project_root (config_manager self) = project_root (config_manager self').

Hypothesis more_scopes :
  incl (ignorer_data (ignorer self)) (ignorer_data (ignorer self')).

Lemma ignored_more (q : string) : ignored self q = true -> ignored self' q = true.
Proof. unfold ignored. now apply existsb_incl. Qed.

Lemma kept_dir_fewer (cur : string) (en : string * node) :
  kept_dir self' cur en = true -> kept_dir self cur en = true.
Proof.
  unfold kept_dir. rewrite <- same_root. intros H.
  apply andb_true_iff in H. destruct H as [H1 H2]. rewrite H1. simpl.
  apply negb_true_iff in H2. apply negb_true_iff.
  destruct (ignored self _) eqn:E; [|reflexivity].
  apply ignored_more in E. congruence.
Qed.

Lemma kept_file_fewer (cur : string) (en : string * node) :
  kept_file self' cur en = true -> kept_file self cur en = true.
Proof.
  unfold kept_file. rewrite <- same_root. intros H.
  apply andb_true_iff in H. destruct H as [H1 H2]. rewrite H1. simpl.
  apply negb_true_iff in H2. apply negb_true_iff.
  destruct (ignored self _) eqn:E; [|reflexivity].
  apply ignored_more in E. congruence.
Qed.

Lemma selection_fewer (n : node) :
  forall cur, subseq (selection self' cur n) (selection self cur n).
Proof.
  induction n as [c|k b entries IH] using node_induction; intros cur; [constructor|].
  simpl. apply subseq_app.
  - apply subseq_map_filter. intros en _. apply kept_file_fewer.
  - apply subseq_flat_map. intros en Hen.
    destruct (kept_dir self' cur en) eqn:Hk.
    + rewrite (kept_dir_fewer cur en Hk). rewrite Forall_forall in IH. now apply IH.
    + apply subseq_nil_l.
Qed.

End Monotone.

Lemma selection_subseq_all_files {lib : Pathspec} (self : FileSelector) (n : node) :
  forall cur, subseq (selection self cur n) (all_files cur n).
Proof.
  induction n as [c|k b entries IH] using node_induction; intros cur; [constructor|].
  simpl. apply subseq_app.
  - apply subseq_map_filter. intros en _ H.
    now destruct (kept_file_inv self cur (fst en) (snd en)) as (_ & -> & _);
      [destruct en|].
  - apply subseq_flat_map. intros en Hen.
    destruct (kept_dir self cur en) eqn:Hk; [|apply subseq_nil_l].
    destruct en as [e child]. destruct (kept_dir_inv self cur e child Hk) as (_ & Hd & _).
    cbn [fst snd]. rewrite Hd. rewrite Forall_forall in IH. exact (IH _ Hen _).
Qed.

(** X5.  Ignore rules only remove files and never reorder them.  When a
    second selector has the same project root and all the scope entries of
    the first, and possibly more, every traversal result of the second is
    the result of the first with some paths left out, in the same order;
    and every traversal result is the list of all non-directory entries of
    the tree, in listing order, with some left out. *)
Theorem X5_more_rules_fewer_files :
  forall (lib : Pathspec) (self self' : FileSelector),
    project_root (config_manager self) = project_root (config_manager self') ->
    incl (ignorer_data (ignorer self)) (ignorer_data (ignorer self')) ->
    forall (cur : string) (n : node) (fuel fuel' : nat) (l l' : list string),
      traverse fuel self cur n = Ok l ->
      traverse fuel' self' cur n = Ok l' ->
      subseq l' l
      /\ subseq l (all_files cur n)
      /\ (forall p, In p l' -> In p l)
      /\ List.length l' <= List.length l.
Proof.
  intros lib self self' Hroot Hincl cur n fuel fuel' l l' Hl Hl'.
  apply traverse_sound in Hl, Hl'. subst l l'.
  pose proof (selection_fewer self self' Hroot Hincl n cur) as H.
  split; [exact H | split; [apply selection_subseq_all_files | split]].
  - intros p. now apply subseq_In.
  - now apply subseq_length.
Qed.

(** Adding a scope that ignores text files to the example selector. *)
Lemma X5_witness :
  traverse 3 prune_selector "/proj" prune_fs = Ok ["/proj/b.txt"]
  /\ traverse 3 strict_selector "/proj" prune_fs = Ok []
  /\ subseq (@nil string) ["/proj/b.txt"]
  /\ subseq ["/proj/b.txt"] (all_files "/proj" prune_fs).
Proof.
  split; [reflexivity | split; [reflexivity|]].
  destruct (X5_more_rules_fewer_files mini_gitignore prune_selector strict_selector eq_refl
              (fun x H => or_introl (match H with or_introl E => E | or_intror F => match F with end end))
              "/proj" prune_fs 3 3 ["/proj/b.txt"] [] eq_refl eq_refl) as (H1 & H2 & _).
  split; [exact H1 | exact H2].
Defined.

(** ** Where the returned paths lie *)

(** X6.  In a well-formed tree, every path that a traversal returns lies
    strictly below the directory the traversal was started on: it extends
    the path of that directory, with a separator in between unless the
    path already ends with one, and is never that path itself. *)
Theorem X6_results_lie_below_start :
  forall (lib : Pathspec) (self : FileSelector) (fuel : nat) (cur : string) (n : node)
         (l : list string),
    well_formed n = true ->
    traverse fuel self cur n = Ok l ->
    forall p, In p l ->
      startswith p cur = true
      /\ startswith p (join_base cur) = true
      /\ p <> cur.
Proof.
  intros lib self fuel cur n l Hw Ht p Hp.
  apply traverse_sound in Ht. subst l.
  apply selection_selected in Hp. destruct Hp as [cs Hs].
  destruct (selected_located self _ _ _ _ Hs) as [Hne [c Hl]].
  destruct (located_valid _ _ _ _ _ Hl Hw) as [Hv _].
  apply located_path in Hl. subst p.
  split; [|split].
  - rewrite path_of_closed by trivial. unfold join_base.
    destruct ((cur =? "") || endswith_sep cur); [apply startswith_append|].
    rewrite append_assoc. apply startswith_append.
  - rewrite path_of_closed by trivial. apply startswith_append.
  - now apply path_of_not_self.
Qed.

(** The result of the example traversal lies below [/proj]. *)
Lemma X6_witness :
  well_formed prune_fs = true
  /\ traverse 3 prune_selector "/proj" prune_fs = Ok ["/proj/b.txt"]
  /\ startswith "/proj/b.txt" "/proj/" = true.
Proof.
  split; [reflexivity | split; [reflexivity|]].
  exact (proj1 (proj2 (X6_results_lie_below_start mini_gitignore prune_selector 3 "/proj"
                         prune_fs ["/proj/b.txt"] eq_refl eq_refl "/proj/b.txt"
                         (or_introl eq_refl)))).
Defined.

(** ** Queries that are not written from the root *)

Lemma scope_prefix_rooted (root top : string) : startswith (scope_prefix root top) "/" = true.
Proof.
  unfold scope_prefix. destruct (os_path_relpath root top =? "."); [reflexivity|].
  change ("/" ++ os_path_relpath root top) with (String "/" (os_path_relpath root top)).
  rewrite startswith_cons. destruct (ascii_dec "/" "/") as [_|n]; [|now elim n].
  apply startswith_empty.
Qed.

Lemma startswith_trans (q p r : string) :
  startswith q p = true -> startswith p r = true -> startswith q r = true.
Proof.
  intros H1 H2. apply startswith_inv in H1, H2.
  destruct H1 as [x ->]. destruct H2 as [y ->].
  rewrite append_assoc. apply startswith_append.
Qed.

(** X7.  Every scope prefix of a registry that [from_git_root] returns
    starts with [/]; so such a registry answers false to every non-empty
    query that does not start with [/], whatever its patterns hold. *)
Theorem X7_built_registry_needs_rooted_queries :
  forall (lib : Pathspec) (root_dir : string) (fs : node)
         (xtra : option (list string)) (reg : GitIgnorer),
    from_git_root root_dir fs xtra = Ok reg ->
    Forall (fun sc => startswith (fst sc) "/" = true) (ignorer_data reg)
    /\ (forall q, q <> "" -> startswith q "/" = false ->
                  GitIgnorer_ignore reg q = Ok false).
Proof.
  intros lib root_dir fs xtra reg H.
  assert (Hp : Forall (fun sc => startswith (fst sc) "/" = true) (ignorer_data reg)).
  { unfold from_git_root, _collect_gitignores in H.
    destruct (PathspecIgnorer_create (or_empty xtra)) as [root_ig| |]; simpl in H;
      try discriminate H.
    destruct (collect_loop root_dir (os_walk root_dir fs) []) as [gs| |] eqn:Hc;
      simpl in H; try discriminate H.
    destruct (append_scopes [("/", root_ig)] gs) as [data| |] eqn:Ha;
      simpl in H; try discriminate H.
    injection H as <-. simpl.
    destruct (collect_loop_spec _ _ _ _ Hc) as (added & -> & Hall & _).
    destruct (append_scopes_spec _ _ _ Ha) as (rest & -> & Hrest).
    simpl. constructor; [reflexivity|].
    eapply Forall2_transfer; [exact Hrest | exact Hall|].
    intros g sc (it & _ & _ & _ & Hg) [Hq _]. rewrite Hq, Hg. apply scope_prefix_rooted. }
  split; [exact Hp|].
  intros q Hne Hq.
  assert (Hr : is_root_query q = false).
  { apply is_root_query_false; [|exact Hne]. intros ->. discriminate Hq. }
  rewrite (ignore_existsb reg q Hr). f_equal.
  apply not_true_is_false. intros He. apply existsb_exists in He.
  destruct He as ([prefix ig] & Hin & Hh). unfold scope_hit in Hh. simpl in Hh.
  apply andb_true_iff in Hh. destruct Hh as [Hs _].
  rewrite Forall_forall in Hp. specialize (Hp _ Hin). simpl in Hp.
  rewrite (startswith_trans q prefix "/" Hs Hp) in Hq. discriminate Hq.
Qed.

(** The registry of the sibling example ignores [/sub/x] but not [sub/x]. *)
Lemma X7_witness :
  from_git_root "/proj" sibling_fs None = Ok sibling_registry
  /\ GitIgnorer_ignore sibling_registry "/sub/x" = Ok true
  /\ "sub/x" <> "" /\ startswith "sub/x" "/" = false
  /\ GitIgnorer_ignore sibling_registry "sub/x" = Ok false.
Proof.
  assert (Hne : "sub/x" <> "") by discriminate.
  split; [reflexivity | split; [reflexivity | split; [exact Hne | split; [reflexivity|]]]].
  exact (proj2 (X7_built_registry_needs_rooted_queries mini_gitignore "/proj" sibling_fs None
                  sibling_registry eq_refl) "sub/x" Hne eq_refl).
Defined.

(** ** Extra root patterns and a [.gitignore] in the root *)

Lemma os_walk_listed (top : string) (k : dirkind) (entries : list (string * node)) :
  top <> "" ->
  os_walk top (Dir k true entries)
  = WalkItem top
      (map fst (filter (fun en => isdir (snd en)) entries))
      (map fst (filter (fun en => negb (isdir (snd en))) entries))
      entries
    :: flat_map (fun en =>
                   match snd en with
                   | Dir Plain _ _ => os_walk (os_path_join top (fst en)) (snd en)
                   | Dir Symlink _ _ => []
                   | File _ => []
                   end) entries.
Proof.
  intros H. apply String.eqb_neq in H. simpl. now rewrite H.
Qed.

Section RootPatterns.

Context {lib : Pathspec}.

Variable root_dir : string.
Variable k : dirkind.
Variable entries : list (string * node).
Variable lines : list string.
Variable empty : GitIgnoreSpec.

Hypothesis root_not_empty : root_dir <> "".
Hypothesis empty_compiles : from_lines [] = Some empty.
Hypothesis empty_matches_nothing : forall q, match_file empty q = false.
Hypothesis no_root_gitignore : forall c, ~ In (".gitignore", File c) entries.

Lemma collect_with_root_file :
  collect_loop root_dir
    (os_walk root_dir (Dir k true ((".gitignore", File (Text lines)) :: entries))) []
  = (r <- collect_loop root_dir
            (flat_map (fun en =>
                     match snd en with
                     | Dir Plain _ _ => os_walk (os_path_join root_dir (fst en)) (snd en)
                     | Dir Symlink _ _ => []
                     | File _ => []
                     end) entries) [] ;;
     Ok (("/", lines) :: r)).
Proof.
  rewrite os_walk_listed by exact root_not_empty.
  rewrite collect_loop_cons.
  cbn [filter map fst snd isdir negb existsb w_files w_here w_root read_lines flat_map app].
  rewrite !String.eqb_refl. cbn [orb bind]. rewrite scope_prefix_self.
  now rewrite collect_loop_shift.
Qed.

Lemma collect_without_root_file :
  collect_loop root_dir (os_walk root_dir (Dir k true entries)) []
  = collect_loop root_dir
      (flat_map (fun en =>
                     match snd en with
                     | Dir Plain _ _ => os_walk (os_path_join root_dir (fst en)) (snd en)
                     | Dir Symlink _ _ => []
                     | File _ => []
                     end) entries) [].
Proof.
  rewrite os_walk_listed by exact root_not_empty.
  rewrite collect_loop_cons. cbn [w_files].
  destruct (existsb (String.eqb ".gitignore")
              (map fst (filter (fun en => negb (isdir (snd en))) entries))) eqn:E;
    [|reflexivity].
  apply gitignore_listed in E. destruct E as [c Hc]. now elim (no_root_gitignore c).
Qed.

Lemma ignore_skips_empty_scope (data : list (string * PathspecIgnorer)) (q : string) :
  GitIgnorer_ignore {| ignorer_data := ("/", {| pathspec := empty |}) :: data |} q
  = GitIgnorer_ignore {| ignorer_data := data |} q.
Proof.
  destruct (is_root_query q) eqn:Hr.
  - now rewrite !ignore_root_query.
  - rewrite !ignore_existsb by exact Hr. cbn [ignorer_data existsb].
    unfold scope_hit at 1. cbn [fst snd pathspec].
    now rewrite empty_matches_nothing, andb_false_r.
Qed.

Lemma root_patterns_both_ways :
  (forall reg1,
      from_git_root root_dir (Dir k true ((".gitignore", File (Text lines)) :: entries)) None
      = Ok reg1 ->
      exists reg2,
        from_git_root root_dir (Dir k true entries) (Some lines) = Ok reg2
        /\ forall q, GitIgnorer_ignore reg1 q = GitIgnorer_ignore reg2 q)
  /\ (forall reg2,
        from_git_root root_dir (Dir k true entries) (Some lines) = Ok reg2 ->
        exists reg1,
          from_git_root root_dir (Dir k true ((".gitignore", File (Text lines)) :: entries)) None
          = Ok reg1
          /\ forall q, GitIgnorer_ignore reg1 q = GitIgnorer_ignore reg2 q).
Proof.
  unfold from_git_root, _collect_gitignores.
  rewrite collect_with_root_file, collect_without_root_file.
  assert (Hc0 : PathspecIgnorer_create [] = Ok {| pathspec := empty |})
    by (unfold PathspecIgnorer_create; now rewrite empty_compiles).
  cbn [or_empty]. rewrite Hc0. cbn [bind].
  match goal with
  | |- context [collect_loop root_dir ?below []] =>
      destruct (collect_loop root_dir below []) as [gs|e|]
  end; cbn [bind append_scopes];
    destruct (PathspecIgnorer_create lines) as [ig|e'|]; cbn [bind app];
    try (split; intros ? H; discriminate H).
  rewrite (append_scopes_shift gs [_; _]), (append_scopes_shift gs [_]).
  destruct (append_scopes [] gs) as [rest|e|]; cbn [bind app];
    try (split; intros ? H; discriminate H).
  split; intros reg H; injection H as <-; eexists; (split; [reflexivity|]); intros q.
  - apply ignore_skips_empty_scope.
  - apply ignore_skips_empty_scope.
Qed.

End RootPatterns.

(** X8.  Extra root patterns act as a [.gitignore] in the root directory
    does.  Take a pattern library whose empty pattern set compiles and
    matches nothing, and a root directory without [.gitignore].  Building
    the registry with the lines as extra patterns succeeds exactly when
    building it without extra patterns, for the same directory with these
    lines in a [.gitignore], succeeds; and the two registries answer every
    query alike. *)
Theorem X8_extra_patterns_act_as_root_gitignore :
  forall (lib : Pathspec) (root_dir : string) (k : dirkind)
         (entries : list (string * node))
         (lines : list string) (empty : GitIgnoreSpec),
    root_dir <> "" ->
    from_lines [] = Some empty ->
    (forall q, match_file empty q = false) ->
    (forall c, ~ In (".gitignore", File c) entries) ->
    (forall reg1,
        from_git_root root_dir (Dir k true ((".gitignore", File (Text lines)) :: entries)) None
        = Ok reg1 ->
        exists reg2,
          from_git_root root_dir (Dir k true entries) (Some lines) = Ok reg2
          /\ forall q, GitIgnorer_ignore reg1 q = GitIgnorer_ignore reg2 q)
    /\ (forall reg2,
          from_git_root root_dir (Dir k true entries) (Some lines) = Ok reg2 ->
          exists reg1,
            from_git_root root_dir (Dir k true ((".gitignore", File (Text lines)) :: entries)) None
            = Ok reg1
            /\ forall q, GitIgnorer_ignore reg1 q = GitIgnorer_ignore reg2 q).
Proof.
  intros lib root_dir k entries lines empty H1 H2 H3 H4.
  now apply (root_patterns_both_ways root_dir k entries lines empty).
Qed.

(** The line [*.log] as an extra pattern and as the root [.gitignore] of a
    project with a [logs] directory. *)
Lemma X8_witness :
  "/proj" <> ""
  /\ exists reg2,
       from_git_root (lib := mini_gitignore) "/proj"
         (Dir Plain true [("debug.log", File (Text [])); ("logs", Dir Plain true [])])
         (Some ["*.log"])
       = Ok reg2
       /\ GitIgnorer_ignore reg2 "/./debug.log" = Ok true.
Proof.
  assert (Hne : "/proj" <> "") by discriminate.
  split; [exact Hne|].
  destruct (X8_extra_patterns_act_as_root_gitignore mini_gitignore "/proj" Plain
              [("debug.log", File (Text [])); ("logs", Dir Plain true [])] ["*.log"] []
              Hne eq_refl (fun q => eq_refl)) as [H _].
  - intros c [E|[E|[]]]; discriminate E.
  - destruct (H _ eq_refl) as (reg2 & Hb & Hq).
    exists reg2. split; [exact Hb|]. rewrite <- Hq. reflexivity.
Defined.

(** ** What the traversal looks at *)

(** X9.  The outcome of a traversal, result or error, depends only on what
    the traversal looks at: two trees that hold the same names with the
    same kinds, directory by directory, wherever the traversal descends
    give the same outcome.  No file content is read, and what lies below an
    ignored directory, or whether that directory can be listed at all,
    makes no difference. *)
Theorem X9_traversal_ignores_pruned_content :
  forall (lib : Pathspec) (self : FileSelector) (fuel : nat) (cur : string) (n n' : node),
    agree self cur n n' ->
    traverse fuel self cur n = traverse fuel self cur n'.
Proof.
  intros lib self fuel cur n n' Ha. now apply traverse_agree.
Qed.

(** The example project, and the same project with an unreadable file and
    an ignored directory that cannot be listed. *)
Lemma X9_witness :
  agree prune_selector "/proj" prune_fs prune_fs_locked
  /\ traverse 3 prune_selector "/proj" prune_fs_locked = Ok ["/proj/b.txt"].
Proof.
  assert (Ha : agree prune_selector "/proj" prune_fs prune_fs_locked).
  { unfold prune_fs, prune_fs_locked.
    apply agree_dir. constructor; [|constructor; [|constructor]].
    - split; [reflexivity | split; [reflexivity|]]. intros H. discriminate H.
    - split; [reflexivity | split; [reflexivity|]]. intros H. discriminate H. }
  split; [exact Ha|].
  rewrite <- (X9_traversal_ignores_pruned_content mini_gitignore prune_selector 3 "/proj"
                prune_fs prune_fs_locked Ha).
  reflexivity.
Defined.

(** ** The traversal and the answers of the registry *)

Section SameAnswers.

Context {lib : Pathspec}.

Variables self self' : FileSelector.

Hypothesis same_root :
  project_root (config_manager self) = project_root (config_manager self').

Hypothesis same_answers :
  forall q, GitIgnorer_ignore (ignorer self) q = GitIgnorer_ignore (ignorer self') q.

Lemma ignored_same (q : string) : is_root_query q = false -> ignored self q = ignored self' q.
Proof.
  intros Hr. pose proof (same_answers q) as H.
  rewrite !ignore_existsb in H by exact Hr. now injection H.
Qed.

Lemma kept_dir_same (cur : string) (en : string * node) :
  kept_dir self cur en = kept_dir self' cur en.
Proof.
  unfold kept_dir. rewrite <- same_root.
  now rewrite (ignored_same _ (dir_query_not_root _ _)).
Qed.

Lemma kept_file_same (cur : string) (en : string * node) :
  kept_file self cur en = kept_file self' cur en.
Proof.
  unfold kept_file. rewrite <- same_root.
  now rewrite (ignored_same _ (file_query_not_root _ _ (relpath_nonempty _ _))).
Qed.

Lemma traverse_same (fuel : nat) :
  forall cur n, traverse fuel self cur n = traverse fuel self' cur n.
Proof.
  induction fuel as [|fuel IH]; intros cur n; [reflexivity|].
  destruct (string_dec cur "") as [->|Hc]; [reflexivity|].
  destruct n as [c|k [|] entries];
    try (now rewrite !traverse_unlistable by (intros es; discriminate)).
  rewrite !traverse_listed by exact Hc.
  rewrite (filter_ext _ _ (kept_dir_same cur)), (filter_ext _ _ (kept_file_same cur)).
  rewrite (flat_mapM_related _
             (fun d => traverse fuel self' (os_path_join cur (fst d)) (snd d))
             (filter (kept_dir self' cur) entries) (filter (kept_dir self' cur) entries));
    [reflexivity|].
  induction (filter (kept_dir self' cur) entries); constructor; [apply IH | assumption].
Qed.

End SameAnswers.

(** X10.  A traversal depends on the registry only through its answers:
    two selectors with the same project root whose registries answer every
    query alike, such as registries with the same scopes in another order,
    give the same outcome on every tree, result or error. *)
Theorem X10_traversal_depends_on_answers_only :
  forall (lib : Pathspec) (self self' : FileSelector),
    project_root (config_manager self) = project_root (config_manager self') ->
    (forall q, GitIgnorer_ignore (ignorer self) q = GitIgnorer_ignore (ignorer self') q) ->
    forall (fuel : nat) (cur : string) (n : node),
      traverse fuel self cur n = traverse fuel self' cur n.
Proof.
  intros lib self self' Hroot Hq fuel cur n. now apply traverse_same.
Qed.

(** The rule-free selector with its scope entered twice. *)
Lemma X10_witness :
  traverse 3 plain_selector "/proj" plain_fs
  = traverse (lib := mini_gitignore) 3
      {| config_manager := plain_cm;
         ignorer := {| ignorer_data :=
                         [("/", {| pathspec := ([] : @GitIgnoreSpec mini_gitignore) |});
                          ("/", {| pathspec := ([] : @GitIgnoreSpec mini_gitignore) |})] |} |}
      "/proj" plain_fs.
Proof.
  apply (X10_traversal_depends_on_answers_only mini_gitignore plain_selector
           {| config_manager := plain_cm;
              ignorer := {| ignorer_data :=
                              [("/", {| pathspec := ([] : @GitIgnoreSpec mini_gitignore) |});
                               ("/", {| pathspec := ([] : @GitIgnoreSpec mini_gitignore) |})] |} |}
           eq_refl).
  intros q. unfold GitIgnorer_ignore. cbn [ignorer plain_selector ignorer_data].
  destruct (is_root_query q) eqn:Hr; [reflexivity|].
  cbn [ignore_loop]. destruct (startswith q "/"); [|reflexivity].
  unfold PathspecIgnorer_ignore. rewrite Hr. reflexivity.
Defined.
